(** * Bounding rectangle and circle of an endoscopic image

    A shallow embedding of [endoscopy/boundary_detection/com_boundary_detectors.py]
    (functions [boundaryRectangle] and [boundaryCircle]) and the properties
    that hold of it.

    Modelling choices.
    - A 2-D numpy array is its shape together with its rows; the shape is
      [(length rows, ncols)], so that the shapes [(0, W)] and [(H, 0)] exist.
    - Pixels are integers ([Z]); the threshold is a Python [int] ([Z]).
    - A [float64] is an exact rational, or one of the special values NaN and
      the two infinities.  Rounding and the sign of zero are not modelled.
      The profiles hold means of 0/255 masks, which are never negative.
    - Index values ([np.int64]) are [Z]; an index is below the length of a
      list, so no wrap-around can happen on them.
    - A Python exception is the name of its class. *)

From Stdlib Require Import ZArith QArith List Lia Lqa.
From stdpp Require Import base option list strings gmap.

Local Open Scope Z_scope.

(** ** Results and exceptions *)

Definition exn := string.

Definition ValueError : exn := "ValueError"%string.

Inductive res (A : Type) : Type :=
| Ok (a : A)
| Raise (e : exn).
Arguments Ok {A} a.
Arguments Raise {A} e.

#[global] Instance res_ret : MRet res := fun A a => Ok a.
#[global] Instance res_bind : MBind res := fun A B f m =>
  match m with
  | Ok a => f a
  | Raise e => Raise e
  end.

(** ** float64 values *)

Inductive float64 : Type :=
| NaN
| Inf (neg : bool)
| Fin (q : Q).

Definition Qneg_bool (q : Q) : bool := negb (Qle_bool 0 q).

(** Truth value of a float, as [np.nonzero] reads it: everything but zero. *)
Definition f_nonzero (x : float64) : bool :=
  match x with
  | Fin q => negb (Qeq_bool q 0)
  | _ => true
  end.

Definition fadd (x y : float64) : float64 :=
  match x, y with
  | NaN, _ | _, NaN => NaN
  | Inf s, Inf s' => if eqb s s' then Inf s else NaN
  | Inf s, Fin _ | Fin _, Inf s => Inf s
  | Fin a, Fin b => Fin (a + b)
  end.

Definition fmul (x y : float64) : float64 :=
  match x, y with
  | NaN, _ | _, NaN => NaN
  | Inf s, Inf s' => Inf (xorb s s')
  | Inf s, Fin q | Fin q, Inf s =>
      if Qeq_bool q 0 then NaN else Inf (xorb s (Qneg_bool q))
  | Fin a, Fin b => Fin (a * b)
  end.

(** numpy scalar division: a zero divisor gives NaN or an infinity (and a
    warning), never an exception. *)
Definition fdiv (x y : float64) : float64 :=
  match x, y with
  | NaN, _ | _, NaN => NaN
  | Inf _, Inf _ => NaN
  | Inf s, Fin q => Inf (xorb s (Qneg_bool q))
  | Fin _, Inf _ => Fin 0
  | Fin a, Fin b =>
      if Qeq_bool b 0
      then (if Qeq_bool a 0 then NaN else Inf (Qneg_bool a))
      else Fin (a / b)
  end.

(** [x > y]; false as soon as one side is NaN. *)
Definition fgt (x y : float64) : bool :=
  match x, y with
  | NaN, _ | _, NaN => false
  | Inf s, Inf s' => negb s && s'
  | Inf s, Fin _ => negb s
  | Fin _, Inf s => s
  | Fin a, Fin b => negb (Qle_bool a b)
  end.

(** Python's builtin [max(a, b)]: the first argument unless the second is
    strictly greater. *)
Definition py_max (a b : float64) : float64 := if fgt b a then b else a.

Definition of_int (n : Z) : float64 := Fin (inject_Z n).

(** Numerical equality of floats (rationals are compared as fractions). *)
Definition feq (x y : float64) : Prop :=
  match x, y with
  | Fin a, Fin b => Qeq a b
  | Inf s, Inf s' => s = s'
  | _, _ => False
  end.

(** ** Arrays *)

Record array2 (A : Type) : Type := Array2 {
  ncols : nat;
  rows : list (list A)
}.
Arguments Array2 {A} ncols rows.
Arguments ncols {A} a.
Arguments rows {A} a.

Definition nrows {A} (a : array2 A) : nat := length (rows a).

(** Every row has [ncols] entries. *)
Definition wf {A} (a : array2 A) : Prop :=
  Forall (fun r => length r = ncols a) (rows a).

Definition wfb {A} (a : array2 A) : bool :=
  forallb (fun r => Nat.eqb (length r) (ncols a)) (rows a).

(** [a[i, j]] *)
Definition pixel {A} (a : array2 A) (i j : nat) : option A :=
  r ← rows a !! i; r !! j.

Definition amap {A B} (f : A -> B) (a : array2 A) : array2 B :=
  Array2 (ncols a) ((fun r : list A => f <$> r) <$> rows a).

(** [np.where(img < th, 0, 255)] *)
Definition np_where_lt (img : array2 Z) (th : Z) : array2 Z :=
  amap (fun x => if x <? th then 0 else 255) img.

(** [.astype(np.uint8)] *)
Definition astype_uint8 (a : array2 Z) : array2 Z :=
  amap (fun x => x mod 256) a.

(** The first statement of both detectors (lines 16 and 42). *)
Definition threshold (img : array2 Z) (th : Z) : array2 Z :=
  astype_uint8 (np_where_lt img th).

Definition zsum (l : list Z) : Z := fold_right Z.add 0 l.

(** Mean of a slice of integers in float64; the mean of an empty slice is
    NaN. *)
Definition mean (l : list Z) : float64 :=
  match length l with
  | O => NaN
  | S n => Fin (zsum l # Pos.of_succ_nat n)
  end.

Definition column (j : nat) (a : array2 Z) : list Z :=
  (fun r => nth j r 0) <$> rows a.

(** [img.mean(axis=0)]: one mean per column. *)
Definition mean_axis0 (a : array2 Z) : list float64 :=
  (fun j => mean (column j a)) <$> seq 0 (ncols a).

(** [img.mean(axis=1)]: one mean per row. *)
Definition mean_axis1 (a : array2 Z) : list float64 :=
  mean <$> rows a.

(** Indices of the nonzero entries of a 1-D array, counted from [i]. *)
Fixpoint nonzero_from (i : Z) (p : list float64) : list Z :=
  match p with
  | [] => []
  | x :: p' =>
      if f_nonzero x then i :: nonzero_from (i + 1) p'
      else nonzero_from (i + 1) p'
  end.

(** [np.nonzero(p)] for a 1-D [p] (the 1-tuple is left implicit). *)
Definition np_nonzero (p : list float64) : list Z := nonzero_from 0 p.

(** [np.min] and [np.max]: a zero-size argument raises [ValueError]. *)
Definition np_min (l : list Z) : res Z :=
  match l with
  | [] => Raise ValueError
  | x :: l' => Ok (fold_left Z.min l' x)
  end.

Definition np_max (l : list Z) : res Z :=
  match l with
  | [] => Raise ValueError
  | x :: l' => Ok (fold_left Z.max l' x)
  end.

(** [np.arange(n)] *)
Definition np_arange (n : nat) : list Z := Z.of_nat <$> seq 0 n.

(** [np.multiply] of an integer array and a float array of the same
    length. *)
Definition np_multiply (ix : list Z) (p : list float64) : list float64 :=
  zip_with (fun i x => fmul (of_int i) x) ix p.

(** [np.sum] of a 1-D float array; the sum of nothing is 0.0. *)
Definition np_sum (p : list float64) : float64 :=
  fold_left fadd p (Fin 0).

(** ** The detectors *)

Definition boundaryRectangle (img : array2 Z) (th : Z)
  : res ((Z * Z) * (Z * Z)) :=
  let img := threshold img th in
  let col_mean := mean_axis0 img in
  let row_mean := mean_axis1 img in
  top ← np_min (np_nonzero row_mean);
  bottom ← np_max (np_nonzero row_mean);
  left ← np_min (np_nonzero col_mean);
  right ← np_max (np_nonzero col_mean);
  let top_left := (top, left) in
  let shape := (bottom - top + 1, right - left + 1) in
  mret (top_left, shape).

(** Centre of mass of a profile (lines 47 and 48). *)
Definition com (p : list float64) : float64 :=
  fdiv (np_sum (np_multiply (np_arange (length p)) p)) (np_sum p).

(** The right-hand side of lines 50 and 51: half the distance between the
    greatest and the smallest nonzero index of a profile. *)
Definition half_span (p : list float64) : res float64 :=
  mx ← np_max (np_nonzero p);
  mn ← np_min (np_nonzero p);
  mret (fdiv (of_int (mx - mn)) (Fin 2)).

(** Lines 50 and 51.  Both lines read [col_mean]; [row_mean] is in scope
    and unused. *)
Definition radii (col_mean row_mean : list float64)
  : res (float64 * float64) :=
  col_radius ← half_span col_mean;
  row_radius ← half_span col_mean;
  mret (col_radius, row_radius).

Definition boundaryCircle (img : array2 Z) (th : Z)
  : res ((float64 * float64) * float64) :=
  let img := threshold img th in
  let col_mean := mean_axis0 img in
  let row_mean := mean_axis1 img in
  let col_com := com col_mean in
  let row_com := com row_mean in
  '(col_radius, row_radius) ← radii col_mean row_mean;
  let radius := py_max col_radius row_radius in
  mret ((row_com, col_com), radius).

(** ** Predicates of the statements *)

(** Pixel [(i, j)] exists and is at or above the threshold. *)
Definition lit (a : array2 Z) (th : Z) (i j : nat) : Prop :=
  exists x, pixel a i j = Some x /\ th <= x.

Definition row_touched (a : array2 Z) (th : Z) (r : Z) : Prop :=
  exists i j, r = Z.of_nat i /\ lit a th i j.

Definition col_touched (a : array2 Z) (th : Z) (c : Z) : Prop :=
  exists i j, c = Z.of_nat j /\ lit a th i j.

Definition least (P : Z -> Prop) (m : Z) : Prop :=
  P m /\ forall x, P x -> m <= x.

Definition greatest (P : Z -> Prop) (m : Z) : Prop :=
  P m /\ forall x, P x -> x <= m.

(** What line 16 does to one pixel. *)
Definition mask_value (th x : Z) : Z := if th <=? x then 255 else 0.


(** A slice of a mask: every entry is 0 or 255. *)
Definition binary (l : list Z) : Prop := Forall (fun x => x = 0 \/ x = 255) l.

(** ** The detectors over a store of arrays

    The same two functions, with the arrays as objects of a store and the
    Python variables as references to them.  Each numpy call allocates its
    result; no statement of the source writes into an existing array. *)

Definition loc := nat.

Inductive obj : Type :=
| OImg (a : array2 Z)
| OProf (p : list float64)
| OIdx (ix : list Z).

Definition M (A : Type) : Type := gmap loc obj -> res A * gmap loc obj.

#[global] Instance M_ret : MRet M := fun A a σ => (Ok a, σ).
#[global] Instance M_bind : MBind M := fun A B k c σ =>
  match c σ with
  | (Ok a, σ') => k a σ'
  | (Raise e, σ') => (Raise e, σ')
  end.

Definition TypeError : exn := "TypeError"%string.

(** A new object, at a location that is not in use. *)
Definition alloc (o : obj) : M loc := fun σ =>
  let l := fresh (dom σ) in (Ok l, <[l := o]> σ).

Definition lift {A} (r : res A) : M A := fun σ => (r, σ).

(** Reading through a reference.  In a run of the detectors a reference
    always holds an array of the expected kind; elsewhere the model raises
    [TypeError]. *)
Definition load_img (l : loc) : M (array2 Z) := fun σ =>
  match σ !! l with
  | Some (OImg a) => (Ok a, σ)
  | _ => (Raise TypeError, σ)
  end.

Definition load_prof (l : loc) : M (list float64) := fun σ =>
  match σ !! l with
  | Some (OProf p) => (Ok p, σ)
  | _ => (Raise TypeError, σ)
  end.

Definition load_idx (l : loc) : M (list Z) := fun σ =>
  match σ !! l with
  | Some (OIdx ix) => (Ok ix, σ)
  | _ => (Raise TypeError, σ)
  end.

Definition np_where_lt_st (img : loc) (th : Z) : M loc :=
  a ← load_img img; alloc (OImg (np_where_lt a th)).

Definition astype_uint8_st (x : loc) : M loc :=
  a ← load_img x; alloc (OImg (astype_uint8 a)).

Definition mean_axis0_st (x : loc) : M loc :=
  a ← load_img x; alloc (OProf (mean_axis0 a)).

Definition mean_axis1_st (x : loc) : M loc :=
  a ← load_img x; alloc (OProf (mean_axis1 a)).

Definition np_nonzero_st (p : loc) : M loc :=
  v ← load_prof p; alloc (OIdx (np_nonzero v)).

Definition np_min_st (ix : loc) : M Z :=
  v ← load_idx ix; lift (np_min v).

Definition np_max_st (ix : loc) : M Z :=
  v ← load_idx ix; lift (np_max v).

Definition boundaryRectangle_st (img : loc) (th : Z) : M (loc * (Z * Z)) :=
  w ← np_where_lt_st img th;
  img ← astype_uint8_st w;
  col_mean ← mean_axis0_st img;
  row_mean ← mean_axis1_st img;
  nz ← np_nonzero_st row_mean;
  top ← np_min_st nz;
  nz ← np_nonzero_st row_mean;
  bottom ← np_max_st nz;
  nz ← np_nonzero_st col_mean;
  left ← np_min_st nz;
  nz ← np_nonzero_st col_mean;
  right ← np_max_st nz;
  top_left ← alloc (OIdx [top; left]);
  let shape := (bottom - top + 1, right - left + 1) in
  mret (top_left, shape).

Definition com_st (p : loc) : M float64 :=
  v ← load_prof p;
  ar ← alloc (OIdx (np_arange (length v)));
  ix ← load_idx ar;
  prod ← alloc (OProf (np_multiply ix v));
  pv ← load_prof prod;
  mret (fdiv (np_sum pv) (np_sum v)).

Definition half_span_st (p : loc) : M float64 :=
  nz ← np_nonzero_st p;
  mx ← np_max_st nz;
  nz ← np_nonzero_st p;
  mn ← np_min_st nz;
  mret (fdiv (of_int (mx - mn)) (Fin 2)).

Definition boundaryCircle_st (img : loc) (th : Z) : M (loc * float64) :=
  w ← np_where_lt_st img th;
  img ← astype_uint8_st w;
  col_mean ← mean_axis0_st img;
  row_mean ← mean_axis1_st img;
  col_com ← com_st col_mean;
  row_com ← com_st row_mean;
  col_radius ← half_span_st col_mean;
  row_radius ← half_span_st col_mean;
  let radius := py_max col_radius row_radius in
  center ← alloc (OProf [row_com; col_com]);
  mret (center, radius).

(** A computation that only adds objects to the store. *)
Definition extends {A} (c : M A) : Prop := forall σ, σ ⊆ (c σ).2.

(** ** Concrete images *)

(** The test image of the specification: 10x10, zero except for a 4x4 block
    of 255 at rows 3-6 and columns 2-5. *)
Definition block_image : array2 Z :=
  Array2 10 (map (fun i => map (fun j =>
    if ((3 <=? i) && (i <=? 6) && (2 <=? j) && (j <=? 5))%bool
    then 255 else 0) (map Z.of_nat (seq 0 10))) (map Z.of_nat (seq 0 10))).

(** The all-zero 2x2 image. *)
Definition zero_image : array2 Z := Array2 2 [[0; 0]; [0; 0]].

(** A 2x2 image with one bright pixel, at row 0 and column 1. *)
Definition small_image : array2 Z := Array2 2 [[0; 20]; [0; 0]].

(** Another image that is bright at the same place only. *)
Definition small_image' : array2 Z := Array2 2 [[5; 200]; [3; 9]].

Definition small_mask : array2 Z := Array2 2 [[0; 255]; [255; 0]].

(** A 2x2 image whose pixels are all bright. *)
Definition bright_image : array2 Z := Array2 2 [[20; 30]; [40; 50]].

(** A store that holds [small_image] at location 0 and nothing else. *)
Definition small_store : gmap loc obj := {[ 0%nat := OImg small_image ]}.

(** ** Index lists: [np.nonzero], [np.min], [np.max] *)

Lemma nonzero_from_spec (p : list float64) : forall (i x : Z),
  x ∈ nonzero_from i p <->
  exists (n : nat) (v : float64),
    x = i + Z.of_nat n /\ p !! n = Some v /\ f_nonzero v = true.
Proof.
  induction p as [|y p IH]; intros i x; simpl.
  - rewrite elem_of_nil. split; [tauto|]. intros (n & v & _ & H & _).
    destruct n; discriminate.
  - assert (Hrec : x ∈ nonzero_from (i + 1) p <->
      exists (n : nat) (v : float64),
        x = i + Z.of_nat (S n) /\ p !! n = Some v /\ f_nonzero v = true).
    { rewrite IH. split; intros (n & v & -> & H); exists n, v; split; auto; lia. }
    destruct (f_nonzero y) eqn:Hy.
    + rewrite elem_of_cons, Hrec. split.
      * intros [-> | (n & v & -> & H)].
        -- exists 0%nat, y. split; [lia | auto].
        -- exists (S n), v. auto.
      * intros (n & v & -> & Hl & Hv). destruct n as [|n].
        -- left. lia.
        -- right. exists n, v. auto.
    + rewrite Hrec. split.
      * intros (n & v & -> & H). exists (S n), v. auto.
      * intros (n & v & -> & Hl & Hv). destruct n as [|n].
        -- simpl in Hl. injection Hl as ->. congruence.
        -- exists n, v. auto.
Qed.

Lemma np_nonzero_spec (p : list float64) (x : Z) :
  x ∈ np_nonzero p <->
  exists (n : nat) (v : float64),
    x = Z.of_nat n /\ p !! n = Some v /\ f_nonzero v = true.
Proof. unfold np_nonzero. rewrite nonzero_from_spec. reflexivity. Qed.

Lemma fold_min_spec (l : list Z) : forall x,
  fold_left Z.min l x ∈ x :: l /\
  forall y, y ∈ x :: l -> fold_left Z.min l x <= y.
Proof.
  induction l as [|z l IH]; intros x; simpl.
  - split; [left|]. intros y Hy. apply elem_of_cons in Hy as [->|Hy]; [lia|].
    inversion Hy.
  - destruct (IH (Z.min x z)) as [Hin Hle]. split.
    + apply elem_of_cons in Hin as [Heq|Hin].
      * rewrite Heq. destruct (Z.min_spec x z) as [[_ ->]|[_ ->]].
        -- left.
        -- right. left.
      * right. right. exact Hin.
    + intros y Hy. assert (Hhd : fold_left Z.min l (Z.min x z) <= Z.min x z)
        by (apply Hle; left).
      apply elem_of_cons in Hy as [Hy|Hy]; [lia|].
      apply elem_of_cons in Hy as [Hy|Hy]; [lia|].
      apply Hle. right. exact Hy.
Qed.

Lemma fold_max_spec (l : list Z) : forall x,
  fold_left Z.max l x ∈ x :: l /\
  forall y, y ∈ x :: l -> y <= fold_left Z.max l x.
Proof.
  induction l as [|z l IH]; intros x; simpl.
  - split; [left|]. intros y Hy. apply elem_of_cons in Hy as [->|Hy]; [lia|].
    inversion Hy.
  - destruct (IH (Z.max x z)) as [Hin Hle]. split.
    + apply elem_of_cons in Hin as [Heq|Hin].
      * rewrite Heq. destruct (Z.max_spec x z) as [[_ ->]|[_ ->]].
        -- right. left.
        -- left.
      * right. right. exact Hin.
    + intros y Hy. assert (Hhd : Z.max x z <= fold_left Z.max l (Z.max x z))
        by (apply Hle; left).
      apply elem_of_cons in Hy as [Hy|Hy]; [lia|].
      apply elem_of_cons in Hy as [Hy|Hy]; [lia|].
      apply Hle. right. exact Hy.
Qed.

Lemma np_min_nonempty (l : list Z) (x : Z) :
  x ∈ l -> exists m, np_min l = Ok m /\ least (fun y => y ∈ l) m.
Proof.
  destruct l as [|z l]; [intros H; inversion H|]. intros _.
  exists (fold_left Z.min l z). split; [reflexivity|]. apply fold_min_spec.
Qed.

Lemma np_max_nonempty (l : list Z) (x : Z) :
  x ∈ l -> exists m, np_max l = Ok m /\ greatest (fun y => y ∈ l) m.
Proof.
  destruct l as [|z l]; [intros H; inversion H|]. intros _.
  exists (fold_left Z.max l z). split; [reflexivity|]. apply fold_max_spec.
Qed.

Lemma np_min_empty (l : list Z) :
  (forall x, x ∉ l) -> np_min l = Raise ValueError.
Proof. intros H. apply elem_of_nil_inv in H. subst. reflexivity. Qed.

Lemma np_max_empty (l : list Z) :
  (forall x, x ∉ l) -> np_max l = Raise ValueError.
Proof. intros H. apply elem_of_nil_inv in H. subst. reflexivity. Qed.

(** ** The mask *)

Lemma mask_value_eq (th x : Z) :
  (if x <? th then 0 else 255) mod 256 = mask_value th x.
Proof.
  unfold mask_value. destruct (Z.ltb_spec x th), (Z.leb_spec th x);
    try lia; reflexivity.
Qed.

Lemma threshold_rows (a : array2 Z) (th : Z) :
  rows (threshold a th) = (fun r : list Z => mask_value th <$> r) <$> rows a.
Proof.
  unfold threshold, astype_uint8, np_where_lt, amap. simpl.
  rewrite <- list_fmap_compose. apply list_fmap_ext. intros _ r _. simpl.
  rewrite <- list_fmap_compose. apply list_fmap_ext. intros _ x _. simpl.
  apply mask_value_eq.
Qed.

Lemma threshold_ncols (a : array2 Z) (th : Z) :
  ncols (threshold a th) = ncols a.
Proof. reflexivity. Qed.

Lemma threshold_nrows (a : array2 Z) (th : Z) :
  nrows (threshold a th) = nrows a.
Proof. unfold nrows. rewrite threshold_rows. apply length_fmap. Qed.

Lemma threshold_wf (a : array2 Z) (th : Z) : wf a -> wf (threshold a th).
Proof.
  unfold wf. rewrite threshold_rows, threshold_ncols, Forall_fmap.
  intros H. eapply Forall_impl; [exact H|].
  intros r Hr. simpl. rewrite length_fmap. exact Hr.
Qed.

Lemma threshold_pixel (a : array2 Z) (th : Z) (i j : nat) :
  pixel (threshold a th) i j = mask_value th <$> pixel a i j.
Proof.
  unfold pixel. rewrite threshold_rows, list_lookup_fmap.
  destruct (rows a !! i) as [r|]; simpl; [|reflexivity].
  apply list_lookup_fmap.
Qed.

Lemma wfb_wf {A} (a : array2 A) : wfb a = true <-> wf a.
Proof.
  unfold wfb, wf. rewrite forallb_forall, Forall_forall.
  split; intros H r Hr.
  - apply Nat.eqb_eq, H, list_elem_of_In, Hr.
  - apply Nat.eqb_eq, H, list_elem_of_In, Hr.
Qed.

Lemma pixel_bounds {A} (a : array2 A) (i j : nat) (x : A) :
  wf a -> pixel a i j = Some x -> (i < nrows a)%nat /\ (j < ncols a)%nat.
Proof.
  unfold pixel, wf, nrows. intros Hwf H.
  destruct (rows a !! i) as [r|] eqn:Hr; simpl in H; [|discriminate].
  split; [eapply lookup_lt_Some; eauto|].
  rewrite Forall_lookup in Hwf. rewrite <- (Hwf _ _ Hr).
  eapply lookup_lt_Some; eauto.
Qed.

(** ** Profiles of a 0/255 slice *)

Lemma binary_mask (th : Z) (r : list Z) : binary (mask_value th <$> r).
Proof.
  unfold binary. rewrite Forall_fmap. apply Forall_forall. intros x _. simpl.
  unfold mask_value. destruct (th <=? x); auto.
Qed.

Lemma zsum_binary (l : list Z) :
  binary l -> 0 <= zsum l /\ (zsum l = 0 <-> 255 ∉ l).
Proof.
  induction 1 as [|x l Hx Hl [IH0 IH]]; simpl.
  - split; [lia|]. split; [intros _; apply not_elem_of_nil | reflexivity].
  - rewrite not_elem_of_cons. destruct Hx as [-> | ->].
    + split; [lia|]. rewrite <- IH. split; [intros; split; lia | intros []; lia].
    + split; [lia|]. split; [lia | intros []; congruence].
Qed.

Lemma mean_touched (l : list Z) :
  l <> [] -> binary l -> (f_nonzero (mean l) = true <-> 255 ∈ l).
Proof.
  intros Hne Hb. unfold mean. destruct l as [|x l]; [congruence|].
  cbn [length f_nonzero]. destruct (zsum_binary _ Hb) as [_ Hz].
  rewrite negb_true_iff, <- not_true_iff_false, Qeq_bool_iff.
  unfold Qeq. cbn [Qnum Qden]. rewrite Z.mul_0_l, Z.mul_1_r, Hz.
  destruct (decide (255 ∈ x :: l)); tauto.
Qed.

Lemma mean_empty_nonzero : f_nonzero (mean []) = true.
Proof. reflexivity. Qed.

Lemma mean_touched_elem (l : list Z) :
  binary l -> 255 ∈ l -> f_nonzero (mean l) = true.
Proof.
  intros Hb Hin. apply mean_touched; auto.
  intros ->. inversion Hin.
Qed.

Lemma mask_value_255 (th x : Z) : mask_value th x = 255 <-> th <= x.
Proof. unfold mask_value. destruct (Z.leb_spec th x); split; intros; lia. Qed.

Lemma binary_column (j : nat) (a : array2 Z) (th : Z) :
  binary (column j (threshold a th)).
Proof.
  unfold binary, column. rewrite threshold_rows, <- list_fmap_compose.
  rewrite Forall_fmap. apply Forall_forall. intros r _. simpl.
  rewrite nth_lookup, list_lookup_fmap. destruct (r !! j) as [x|]; simpl; auto.
  unfold mask_value. destruct (th <=? x); auto.
Qed.

Lemma column_255 (j : nat) (a : array2 Z) (th : Z) :
  255 ∈ column j (threshold a th) <-> exists i, lit a th i j.
Proof.
  unfold column. rewrite threshold_rows, <- list_fmap_compose.
  rewrite list_elem_of_fmap. split.
  - intros (r & Hv & Hr). simpl in Hv.
    apply list_elem_of_lookup in Hr as [i Hi]. exists i.
    rewrite nth_lookup, list_lookup_fmap in Hv.
    destruct (r !! j) as [x|] eqn:Hx; simpl in Hv; [|discriminate].
    exists x. split; [unfold pixel; rewrite Hi; exact Hx|].
    apply mask_value_255. congruence.
  - intros (i & x & Hp & Hx). unfold pixel in Hp.
    destruct (rows a !! i) as [r|] eqn:Hr; simpl in Hp; [|discriminate].
    exists r. split; [|eapply list_elem_of_lookup_2; eauto]. simpl.
    rewrite nth_lookup, list_lookup_fmap, Hp. simpl. symmetry.
    apply mask_value_255. exact Hx.
Qed.

(** ** Which rows and columns the profiles mark *)

Lemma rows_touched_iff (a : array2 Z) (th r : Z) :
  wf a -> (0 < ncols a)%nat ->
  r ∈ np_nonzero (mean_axis1 (threshold a th)) <-> row_touched a th r.
Proof.
  intros Hwf Hc. rewrite np_nonzero_spec. unfold mean_axis1.
  rewrite threshold_rows. split.
  - intros (n & v & -> & Hl & Hv). rewrite !list_lookup_fmap in Hl.
    destruct (rows a !! n) as [row|] eqn:Hrow; simpl in Hl; [|discriminate].
    injection Hl as <-.
    assert (Hlen : length row = ncols a).
    { unfold wf in Hwf. rewrite Forall_lookup in Hwf. eauto. }
    apply mean_touched in Hv; [| |apply binary_mask].
    + apply list_elem_of_fmap in Hv as (x & Hx & Hin).
      apply list_elem_of_lookup in Hin as [j Hj]. exists n, j.
      split; [reflexivity|]. exists x.
      split; [unfold pixel; rewrite Hrow; exact Hj|].
      apply mask_value_255. congruence.
    + intros Hnil. apply (f_equal length) in Hnil.
      rewrite length_fmap in Hnil. simpl in Hnil. lia.
  - intros (i & j & -> & x & Hp & Hx). unfold pixel in Hp.
    destruct (rows a !! i) as [row|] eqn:Hrow; simpl in Hp; [|discriminate].
    exists i, (mean (mask_value th <$> row)). split; [reflexivity|].
    split; [rewrite !list_lookup_fmap, Hrow; reflexivity|].
    apply mean_touched_elem; [apply binary_mask|].
    apply list_elem_of_fmap. exists x.
    split; [symmetry; apply mask_value_255; exact Hx|].
    eapply list_elem_of_lookup_2; eauto.
Qed.

Lemma cols_touched_iff (a : array2 Z) (th c : Z) :
  wf a -> (0 < nrows a)%nat ->
  c ∈ np_nonzero (mean_axis0 (threshold a th)) <-> col_touched a th c.
Proof.
  intros Hwf Hr. rewrite np_nonzero_spec. unfold mean_axis0.
  rewrite threshold_ncols. split.
  - intros (n & v & -> & Hl & Hv). rewrite list_lookup_fmap in Hl.
    destruct (seq 0 (ncols a) !! n) as [j|] eqn:Hj; simpl in Hl; [|discriminate].
    apply lookup_seq in Hj as [-> Hlt]. injection Hl as <-. simpl in Hv.
    apply mean_touched in Hv; [| |apply binary_column].
    + apply column_255 in Hv as [i Hi]. exists i, n. auto.
    + intros Hnil. apply (f_equal length) in Hnil. unfold column in Hnil.
      rewrite length_fmap in Hnil. fold (nrows (threshold a th)) in Hnil.
      rewrite threshold_nrows in Hnil. simpl in Hnil. lia.
  - intros (i & j & -> & Hlit). destruct Hlit as (x & Hp & Hx).
    destruct (pixel_bounds _ _ _ _ Hwf Hp) as [_ Hj].
    exists j, (mean (column j (threshold a th))). split; [reflexivity|].
    split; [rewrite list_lookup_fmap, lookup_seq_lt by exact Hj; reflexivity|].
    apply mean_touched_elem; [apply binary_column|].
    apply column_255. exists i, x. auto.
Qed.

Lemma least_ext (P Q : Z -> Prop) (m : Z) :
  (forall x, P x <-> Q x) -> least P m -> least Q m.
Proof.
  intros H [Hm Hle]. split; [apply H, Hm|]. intros x Hx. apply Hle, H, Hx.
Qed.

Lemma greatest_ext (P Q : Z -> Prop) (m : Z) :
  (forall x, P x <-> Q x) -> greatest P m -> greatest Q m.
Proof.
  intros H [Hm Hle]. split; [apply H, Hm|]. intros x Hx. apply Hle, H, Hx.
Qed.

Lemma lit_shape (a : array2 Z) (th : Z) (i j : nat) :
  wf a -> lit a th i j -> (0 < nrows a)%nat /\ (0 < ncols a)%nat.
Proof.
  intros Hwf (x & Hp & _). destruct (pixel_bounds _ _ _ _ Hwf Hp). lia.
Qed.

Lemma rows_extremes (a : array2 Z) (th : Z) :
  wf a -> (exists i j, lit a th i j) ->
  exists top bottom,
    np_min (np_nonzero (mean_axis1 (threshold a th))) = Ok top /\
    np_max (np_nonzero (mean_axis1 (threshold a th))) = Ok bottom /\
    least (row_touched a th) top /\ greatest (row_touched a th) bottom.
Proof.
  intros Hwf (i & j & Hlit). destruct (lit_shape _ _ _ _ Hwf Hlit) as [_ Hc].
  assert (Hin : Z.of_nat i ∈ np_nonzero (mean_axis1 (threshold a th))).
  { apply rows_touched_iff; auto. exists i, j. auto. }
  destruct (np_min_nonempty _ _ Hin) as (top & Htop & Hl).
  destruct (np_max_nonempty _ _ Hin) as (bottom & Hbot & Hg).
  exists top, bottom. split; [exact Htop|]. split; [exact Hbot|]. split.
  - refine (least_ext _ (row_touched a th) _ _ Hl). intros x. apply rows_touched_iff; auto.
  - refine (greatest_ext _ (row_touched a th) _ _ Hg). intros x. apply rows_touched_iff; auto.
Qed.

Lemma cols_extremes (a : array2 Z) (th : Z) :
  wf a -> (exists i j, lit a th i j) ->
  exists left right,
    np_min (np_nonzero (mean_axis0 (threshold a th))) = Ok left /\
    np_max (np_nonzero (mean_axis0 (threshold a th))) = Ok right /\
    least (col_touched a th) left /\ greatest (col_touched a th) right.
Proof.
  intros Hwf (i & j & Hlit). destruct (lit_shape _ _ _ _ Hwf Hlit) as [Hr _].
  assert (Hin : Z.of_nat j ∈ np_nonzero (mean_axis0 (threshold a th))).
  { apply cols_touched_iff; auto. exists i, j. auto. }
  destruct (np_min_nonempty _ _ Hin) as (left & Hleft & Hl).
  destruct (np_max_nonempty _ _ Hin) as (right & Hright & Hg).
  exists left, right. split; [exact Hleft|]. split; [exact Hright|]. split.
  - refine (least_ext _ (col_touched a th) _ _ Hl). intros x. apply cols_touched_iff; auto.
  - refine (greatest_ext _ (col_touched a th) _ _ Hg). intros x. apply cols_touched_iff; auto.
Qed.

Lemma array2_eq {A} (a b : array2 A) :
  ncols a = ncols b -> rows a = rows b -> a = b.
Proof. destruct a, b. simpl. intros -> ->. reflexivity. Qed.

Lemma boundaryRectangle_extremes (a : array2 Z) (th : Z) :
  wf a -> (exists i j, lit a th i j) ->
  exists top bottom left right,
    boundaryRectangle a th =
      Ok ((top, left), (bottom - top + 1, right - left + 1)) /\
    least (row_touched a th) top /\ greatest (row_touched a th) bottom /\
    least (col_touched a th) left /\ greatest (col_touched a th) right.
Proof.
  intros Hwf Hlit.
  destruct (rows_extremes a th Hwf Hlit) as (top & bottom & Ht & Hb & Hlt & Hgb).
  destruct (cols_extremes a th Hwf Hlit) as (left & right & Hl & Hr & Hll & Hgr).
  exists top, bottom, left, right. split; [|auto].
  unfold boundaryRectangle. cbv zeta. rewrite Ht, Hb, Hl, Hr. reflexivity.
Qed.

Lemma half_span_value (d : Z) :
  fdiv (of_int d) (Fin 2) = Fin (inject_Z d / 2).
Proof. reflexivity. Qed.

Lemma py_max_same (x : float64) : py_max x x = x.
Proof. unfold py_max. destruct (fgt x x); reflexivity. Qed.

(** ** Properties of the detectors *)

(** C1.  On a 2-D image with at least one pixel at or above [th],
    [boundaryRectangle] returns the smallest inclusive box around those
    pixels: each of them has its row in [top, top+height-1] and its column
    in [left, left+width-1], and each of the four border lines of the box
    (row [top], row [top+height-1], column [left], column [left+width-1])
    holds such a pixel, so that moving any side inwards by one loses it. *)
Theorem boundaryRectangle_smallest_box (a : array2 Z) (th : Z) :
  wf a -> (exists i j, lit a th i j) ->
  exists top left height width,
    boundaryRectangle a th = Ok ((top, left), (height, width)) /\
    (forall i j, lit a th i j ->
       top <= Z.of_nat i <= top + height - 1 /\
       left <= Z.of_nat j <= left + width - 1) /\
    row_touched a th top /\ row_touched a th (top + height - 1) /\
    col_touched a th left /\ col_touched a th (left + width - 1).
Proof.
  intros Hwf Hlit.
  destruct (boundaryRectangle_extremes a th Hwf Hlit)
    as (top & bottom & left & right & Heq & [Ht Htl] & [Hb Hbg] & [Hl Hll] & [Hr Hrg]).
  exists top, left, (bottom - top + 1), (right - left + 1).
  replace (top + (bottom - top + 1) - 1) with bottom by lia.
  replace (left + (right - left + 1) - 1) with right by lia.
  split; [exact Heq|]. split; [|auto].
  intros i j Hij.
  assert (Hrow : row_touched a th (Z.of_nat i)) by (exists i, j; auto).
  assert (Hcol : col_touched a th (Z.of_nat j)) by (exists i, j; auto).
  specialize (Htl _ Hrow). specialize (Hbg _ Hrow).
  specialize (Hll _ Hcol). specialize (Hrg _ Hcol). lia.
Qed.

(** C2.  On a 2-D image with at least one pixel at or above [th],
    [boundaryCircle] returns as radius half the distance between the
    smallest and the greatest touched column index.  Both [col_radius] and
    [row_radius] are that value, whatever the row profile is: the row
    profile does not enter the radius. *)
Theorem boundaryCircle_radius_is_column_half_span (a : array2 Z) (th : Z) :
  wf a -> (exists i j, lit a th i j) ->
  exists center left right,
    least (col_touched a th) left /\ greatest (col_touched a th) right /\
    boundaryCircle a th = Ok (center, Fin (inject_Z (right - left) / 2)) /\
    forall row_mean,
      radii (mean_axis0 (threshold a th)) row_mean =
        Ok (Fin (inject_Z (right - left) / 2),
            Fin (inject_Z (right - left) / 2)).
Proof.
  intros Hwf Hlit.
  destruct (cols_extremes a th Hwf Hlit) as (left & right & Hl & Hr & Hll & Hgr).
  assert (Hrad : forall row_mean,
    radii (mean_axis0 (threshold a th)) row_mean =
      Ok (Fin (inject_Z (right - left) / 2), Fin (inject_Z (right - left) / 2))).
  { intros row_mean. unfold radii, half_span. rewrite Hl, Hr. reflexivity. }
  eexists _, left, right. split; [exact Hll|]. split; [exact Hgr|].
  split; [|exact Hrad].
  unfold boundaryCircle. cbv zeta. rewrite Hrad. cbn [mbind res_bind].
  rewrite py_max_same. reflexivity.
Qed.

(** C3.  Thresholding sends a pixel to 255 when it is at or above [th] and
    to 0 when it is below (a pixel equal to [th] becomes 255); the mask has
    the shape of the image and its entries fit in 8 unsigned bits. *)
Theorem threshold_elementwise (a : array2 Z) (th : Z) (i j : nat) (x : Z) :
  pixel a i j = Some x ->
  (th <= x -> pixel (threshold a th) i j = Some 255) /\
  (x < th -> pixel (threshold a th) i j = Some 0) /\
  nrows (threshold a th) = nrows a /\ ncols (threshold a th) = ncols a /\
  (forall i' j' m, pixel (threshold a th) i' j' = Some m -> 0 <= m < 256).
Proof.
  intros Hp. rewrite threshold_pixel, Hp. simpl. unfold mask_value.
  split; [|split; [|split; [|split]]].
  - intros H. destruct (Z.leb_spec th x); [reflexivity|lia].
  - intros H. destruct (Z.leb_spec th x); [lia|reflexivity].
  - apply threshold_nrows.
  - reflexivity.
  - intros i' j' m. rewrite threshold_pixel.
    destruct (pixel a i' j') as [y|]; simpl; [|discriminate].
    intros [= <-]. unfold mask_value. destruct (th <=? y); lia.
Qed.

(** C7.  Thresholding a mask whose entries are all 0 or 255 with a
    threshold in (0, 255] gives the mask back. *)
Theorem threshold_idempotent (m : array2 Z) (th : Z) :
  Forall binary (rows m) -> 0 < th <= 255 -> threshold m th = m.
Proof.
  intros Hb Hth. apply array2_eq; [reflexivity|].
  rewrite threshold_rows. rewrite <- (list_fmap_id (rows m)) at 2.
  apply Forall_fmap_ext. eapply Forall_impl; [exact Hb|].
  intros r Hr. simpl. rewrite <- (list_fmap_id r) at 2.
  apply Forall_fmap_ext. eapply Forall_impl; [exact Hr|].
  intros x [-> | ->]; unfold mask_value; simpl.
  - destruct (Z.leb_spec th 0); [lia|reflexivity].
  - destruct (Z.leb_spec th 255); [reflexivity|lia].
Qed.

(** C5.  On the 10x10 test image with a 4x4 block of 255 at rows 3-6 and
    columns 2-5 and with [th = 10], [boundaryRectangle] returns top-left
    corner (3, 2) and shape (4, 4), and [boundaryCircle] returns centre
    (4.5, 3.5) and radius 1.5. *)
Theorem block_scenario :
  boundaryRectangle block_image 10 = Ok ((3, 2), (4, 4)) /\
  exists row_com col_com radius,
    boundaryCircle block_image 10 = Ok ((row_com, col_com), radius) /\
    feq row_com (Fin (9 # 2)) /\ feq col_com (Fin (7 # 2)) /\
    feq radius (Fin (3 # 2)).
Proof.
  split; [vm_compute; reflexivity|].
  eexists _, _, _. split; [vm_compute; reflexivity|].
  repeat split; vm_compute; reflexivity.
Qed.

Lemma lit_mono (a : array2 Z) (th1 th2 : Z) (i j : nat) :
  th1 <= th2 -> lit a th2 i j -> lit a th1 i j.
Proof. intros Hle (x & Hp & Hx). exists x. split; [exact Hp|lia]. Qed.

(** C6.  Raising the threshold never enlarges the rectangle: for
    [th1 <= th2], both leaving at least one pixel at or above the threshold,
    the area (height times width) at [th2] is at most the area at [th1]. *)
Theorem boundaryRectangle_area_antitone (a : array2 Z) (th1 th2 : Z) :
  wf a -> th1 <= th2 ->
  (exists i j, lit a th1 i j) -> (exists i j, lit a th2 i j) ->
  exists tl1 h1 w1 tl2 h2 w2,
    boundaryRectangle a th1 = Ok (tl1, (h1, w1)) /\
    boundaryRectangle a th2 = Ok (tl2, (h2, w2)) /\
    h2 * w2 <= h1 * w1.
Proof.
  intros Hwf Hle H1 H2.
  destruct (boundaryRectangle_extremes a th1 Hwf H1)
    as (t1 & b1 & l1 & r1 & E1 & [_ Ht1] & [_ Hb1] & [_ Hl1] & [_ Hr1]).
  destruct (boundaryRectangle_extremes a th2 Hwf H2)
    as (t2 & b2 & l2 & r2 & E2 & [Pt2 Ht2] & [Pb2 _] & [Pl2 Hl2] & [Pr2 _]).
  exists (t1, l1), (b1 - t1 + 1), (r1 - l1 + 1),
         (t2, l2), (b2 - t2 + 1), (r2 - l2 + 1).
  split; [exact E1|]. split; [exact E2|].
  assert (Hrow : forall r, row_touched a th2 r -> row_touched a th1 r).
  { intros r (i & j & -> & H). exists i, j. eauto using lit_mono. }
  assert (Hcol : forall c, col_touched a th2 c -> col_touched a th1 c).
  { intros c (i & j & -> & H). exists i, j. eauto using lit_mono. }
  pose proof (Ht1 _ (Hrow _ Pt2)). pose proof (Hb1 _ (Hrow _ Pb2)).
  pose proof (Hl1 _ (Hcol _ Pl2)). pose proof (Hr1 _ (Hcol _ Pr2)).
  pose proof (Ht2 _ Pb2). pose proof (Hl2 _ Pr2).
  apply Z.mul_le_mono_nonneg; lia.
Qed.

Lemma threshold_same_lit (a b : array2 Z) (th : Z) :
  wf a -> wf b -> nrows a = nrows b -> ncols a = ncols b ->
  (forall i j x y, pixel a i j = Some x -> pixel b i j = Some y ->
     (th <= x <-> th <= y)) ->
  threshold a th = threshold b th.
Proof.
  intros Hwa Hwb Hr Hc Hlit. apply array2_eq; [exact Hc|].
  rewrite !threshold_rows. apply list_eq. intros i.
  rewrite !list_lookup_fmap.
  destruct (rows a !! i) as [ra|] eqn:Ha, (rows b !! i) as [rb|] eqn:Hb; simpl.
  - f_equal. apply list_eq. intros j. rewrite !list_lookup_fmap.
    assert (Hla : length ra = ncols a).
    { unfold wf in Hwa. rewrite Forall_lookup in Hwa. eauto. }
    assert (Hlb : length rb = ncols b).
    { unfold wf in Hwb. rewrite Forall_lookup in Hwb. eauto. }
    destruct (ra !! j) as [x|] eqn:Hx, (rb !! j) as [y|] eqn:Hy; simpl.
    + f_equal. specialize (Hlit i j x y). unfold pixel in Hlit.
      rewrite Ha, Hb in Hlit. specialize (Hlit Hx Hy).
      unfold mask_value.
      destruct (Z.leb_spec th x), (Z.leb_spec th y); try reflexivity; lia.
    + apply lookup_lt_Some in Hx. apply lookup_ge_None in Hy. lia.
    + apply lookup_ge_None in Hx. apply lookup_lt_Some in Hy. lia.
    + reflexivity.
  - apply lookup_lt_Some in Ha. apply lookup_ge_None in Hb.
    unfold nrows in Hr. lia.
  - apply lookup_ge_None in Ha. apply lookup_lt_Some in Hb.
    unfold nrows in Hr. lia.
  - reflexivity.
Qed.

(** C10.  Two images of the same shape whose pixels are at or above [th]
    at exactly the same positions get the same rectangle and the same
    circle: the detectors see the image only through the set of illuminated
    positions. *)
Theorem detectors_depend_on_lit_positions_only (a b : array2 Z) (th : Z) :
  wf a -> wf b -> nrows a = nrows b -> ncols a = ncols b ->
  (forall i j x y, pixel a i j = Some x -> pixel b i j = Some y ->
     (th <= x <-> th <= y)) ->
  boundaryRectangle a th = boundaryRectangle b th /\
  boundaryCircle a th = boundaryCircle b th.
Proof.
  intros Hwa Hwb Hr Hc Hlit.
  pose proof (threshold_same_lit a b th Hwa Hwb Hr Hc Hlit) as Heq.
  unfold boundaryRectangle, boundaryCircle. rewrite Heq. split; reflexivity.
Qed.

(** ** Images without an illuminated pixel, and empty images *)

Lemma zero_image_dark (i j : nat) : ~ lit zero_image 10 i j.
Proof.
  intros (x & Hp & Hx). unfold pixel in Hp.
  destruct i as [|[|i]]; simpl in Hp; try discriminate;
    destruct j as [|[|j]]; simpl in Hp; try discriminate;
    injection Hp as <-; lia.
Qed.

Lemma no_lit_rows_empty (a : array2 Z) (th : Z) :
  wf a -> (0 < ncols a)%nat -> (forall i j, ~ lit a th i j) ->
  np_nonzero (mean_axis1 (threshold a th)) = [].
Proof.
  intros Hwf Hc Hno. apply elem_of_nil_inv. intros x Hx.
  apply rows_touched_iff in Hx; auto.
  destruct Hx as (i & j & _ & H). exact (Hno i j H).
Qed.

Lemma no_lit_cols_empty (a : array2 Z) (th : Z) :
  wf a -> (0 < nrows a)%nat -> (forall i j, ~ lit a th i j) ->
  np_nonzero (mean_axis0 (threshold a th)) = [].
Proof.
  intros Hwf Hr Hno. apply elem_of_nil_inv. intros x Hx.
  apply cols_touched_iff in Hx; auto.
  destruct Hx as (i & j & _ & H). exact (Hno i j H).
Qed.

(** C4, as the code has it.  On a 2-D image with at least one row and one
    column in which no pixel reaches the threshold, both detectors fail with
    numpy's [ValueError] (the minimum or maximum of an empty index array).
    No dedicated exception class is involved. *)
Theorem no_lit_pixel_raises_ValueError (a : array2 Z) (th : Z) :
  wf a -> (0 < nrows a)%nat -> (0 < ncols a)%nat ->
  (forall i j, ~ lit a th i j) ->
  boundaryRectangle a th = Raise ValueError /\
  boundaryCircle a th = Raise ValueError.
Proof.
  intros Hwf Hr Hc Hno. split.
  - unfold boundaryRectangle. cbv zeta.
    rewrite (no_lit_rows_empty a th Hwf Hc Hno). reflexivity.
  - unfold boundaryCircle, radii, half_span. cbv zeta.
    rewrite (no_lit_cols_empty a th Hwf Hr Hno). reflexivity.
Qed.

(** C4, counterexample.  On the all-zero 2x2 image with [th = 10] it is not
    the case that both detectors raise an [EmptyRegionError]: what they
    raise is [ValueError]. *)
Lemma zero_image_no_EmptyRegionError :
  ~ (boundaryRectangle zero_image 10 = Raise "EmptyRegionError"%string /\
     boundaryCircle zero_image 10 = Raise "EmptyRegionError"%string).
Proof. intros [H _]. vm_compute in H. discriminate H. Qed.

Lemma np_sum_from_nan (p : list float64) : fold_left fadd p NaN = NaN.
Proof. induction p as [|x p IH]; simpl; auto. Qed.

Lemma np_sum_nan (p : list float64) :
  p <> [] -> Forall (eq NaN) p -> np_sum p = NaN.
Proof.
  intros Hne Hp. destruct p as [|x p]; [congruence|].
  inversion Hp as [|? ? Hx _]; subst. unfold np_sum. simpl.
  apply np_sum_from_nan.
Qed.

Lemma np_multiply_nan (p : list float64) : forall ix,
  Forall (eq NaN) p -> Forall (eq NaN) (np_multiply ix p).
Proof.
  unfold np_multiply. induction p as [|x p IH]; intros ix Hp.
  - destruct ix; constructor.
  - inversion Hp as [|? ? Hx Hp']; subst. destruct ix as [|i ix]; simpl.
    + constructor.
    + constructor; [reflexivity|apply IH, Hp'].
Qed.

Lemma com_nan (p : list float64) : Forall (eq NaN) p -> com p = NaN.
Proof.
  intros Hp. unfold com. destruct p as [|x p]; [reflexivity|].
  rewrite (np_sum_nan (x :: p)) by (auto; congruence).
  destruct (np_sum _); reflexivity.
Qed.

Lemma nonzero_all_nan (p : list float64) (x : Z) :
  Forall (eq NaN) p ->
  x ∈ np_nonzero p <-> 0 <= x < Z.of_nat (length p).
Proof.
  intros Hp. rewrite np_nonzero_spec. split.
  - intros (n & v & -> & Hl & _). apply lookup_lt_Some in Hl. lia.
  - intros Hx. destruct (lookup_lt_is_Some_2 p (Z.to_nat x)) as [v Hv]; [lia|].
    exists (Z.to_nat x), v. split; [lia|]. split; [exact Hv|].
    rewrite Forall_lookup in Hp. rewrite <- (Hp _ _ Hv). reflexivity.
Qed.

Lemma extremes_all_nan (p : list float64) :
  Forall (eq NaN) p -> p <> [] ->
  np_min (np_nonzero p) = Ok 0 /\
  np_max (np_nonzero p) = Ok (Z.of_nat (length p) - 1).
Proof.
  intros Hp Hne.
  assert (Hlen : (0 < length p)%nat) by (destruct p; simpl; [congruence|lia]).
  assert (H0 : 0 ∈ np_nonzero p) by (apply nonzero_all_nan; auto; lia).
  destruct (np_min_nonempty _ _ H0) as (mn & -> & Hmn & Hle).
  destruct (np_max_nonempty _ _ H0) as (mx & -> & Hmx & Hge).
  apply nonzero_all_nan in Hmn, Hmx; auto.
  assert (Hlast : Z.of_nat (length p) - 1 ∈ np_nonzero p)
    by (apply nonzero_all_nan; auto; lia).
  specialize (Hle _ H0). specialize (Hge _ Hlast).
  split; f_equal; lia.
Qed.

Lemma mean_axis0_no_rows (a : array2 Z) :
  rows a = [] ->
  Forall (eq NaN) (mean_axis0 a) /\ length (mean_axis0 a) = ncols a.
Proof.
  intros Hr. unfold mean_axis0, column. rewrite Hr. split.
  - rewrite Forall_fmap. apply Forall_forall. intros j _. reflexivity.
  - rewrite length_fmap. apply length_seq.
Qed.

(** C8, as the code has it.  The detectors check no shape.  On a 2-D array
    with a zero-length dimension [boundaryRectangle] fails with numpy's
    [ValueError]; so does [boundaryCircle] when there is no column; when
    there is no row but [W >= 1] columns, [boundaryCircle] returns the
    centre (NaN, NaN) and the radius [(W - 1) / 2]. *)
Theorem zero_length_dimension (a : array2 Z) (th : Z) :
  wf a -> (nrows a = 0 \/ ncols a = 0)%nat ->
  boundaryRectangle a th = Raise ValueError /\
  (ncols a = 0%nat -> boundaryCircle a th = Raise ValueError) /\
  (nrows a = 0%nat -> (0 < ncols a)%nat ->
   boundaryCircle a th =
     Ok ((NaN, NaN), Fin (inject_Z (Z.of_nat (ncols a) - 1) / 2))).
Proof.
  intros Hwf Hdim.
  assert (Hcol0 : ncols a = 0%nat -> mean_axis0 (threshold a th) = []).
  { intros H. unfold mean_axis0. rewrite threshold_ncols, H. reflexivity. }
  assert (Hrow0 : nrows a = 0%nat -> rows (threshold a th) = []).
  { intros H. rewrite <- threshold_nrows with (th := th) in H.
    unfold nrows in H. destruct (rows (threshold a th)); [reflexivity|].
    discriminate H. }
  split; [|split].
  - unfold boundaryRectangle. cbv zeta. destruct Hdim as [H|H].
    + unfold mean_axis1. rewrite (Hrow0 H). reflexivity.
    + rewrite (Hcol0 H).
      destruct (np_nonzero (mean_axis1 (threshold a th))); reflexivity.
  - intros H. unfold boundaryCircle, radii, half_span. cbv zeta. rewrite (Hcol0 H).
    reflexivity.
  - intros Hr Hc. specialize (Hrow0 Hr).
    destruct (mean_axis0_no_rows _ Hrow0) as [Hnan Hlen].
    rewrite threshold_ncols in Hlen.
    assert (Hne : mean_axis0 (threshold a th) <> []).
    { intros E. rewrite E in Hlen. simpl in Hlen. lia. }
    destruct (extremes_all_nan _ Hnan Hne) as [Hmn Hmx].
    unfold boundaryCircle, radii, half_span. cbv zeta. rewrite Hmn, Hmx, Hlen.
    rewrite (com_nan _ Hnan). unfold mean_axis1. rewrite Hrow0.
    cbn [mbind res_bind]. rewrite Z.sub_0_r, half_span_value.
    unfold mret, res_ret, mbind, res_bind. rewrite py_max_same. reflexivity.
Qed.

(** C8, counterexample.  On the array of shape (0, 3) it is not the case
    that both detectors raise an [InvalidShapeError]: [boundaryRectangle]
    raises [ValueError] and [boundaryCircle] returns. *)
Lemma empty_array_no_InvalidShapeError :
  ~ (boundaryRectangle (Array2 3 []) 10 = Raise "InvalidShapeError"%string /\
     boundaryCircle (Array2 3 []) 10 = Raise "InvalidShapeError"%string).
Proof. intros [H _]. vm_compute in H. discriminate H. Qed.

(** ** The store reading *)

(** *** Running a computation *)

Lemma bind_ok {A B} (c : M A) (k : A -> M B) σ a σ' :
  c σ = (Ok a, σ') -> (c ≫= k) σ = k a σ'.
Proof. intros H. unfold mbind, M_bind. rewrite H. reflexivity. Qed.

Lemma bind_raise {A B} (c : M A) (k : A -> M B) σ e σ' :
  c σ = (Raise e, σ') -> (c ≫= k) σ = (Raise e, σ').
Proof. intros H. unfold mbind, M_bind. rewrite H. reflexivity. Qed.

Lemma alloc_spec (o : obj) (σ : gmap loc obj) :
  exists l, alloc o σ = (Ok l, <[l := o]> σ) /\ σ !! l = None.
Proof.
  exists (fresh (dom σ)). split; [reflexivity|].
  apply not_elem_of_dom, is_fresh.
Qed.

Lemma alloc_run (o : obj) (σ : gmap loc obj) :
  exists l σ', alloc o σ = (Ok l, σ') /\ σ ⊆ σ' /\ σ !! l = None /\
               σ' !! l = Some o.
Proof.
  destruct (alloc_spec o σ) as (l & E & F). exists l, (<[l := o]> σ).
  split; [exact E|]. split; [apply insert_subseteq, F|].
  split; [exact F|apply lookup_insert_eq].
Qed.

Lemma load_img_run σ l a : σ !! l = Some (OImg a) -> load_img l σ = (Ok a, σ).
Proof. intros H. unfold load_img. rewrite H. reflexivity. Qed.

Lemma load_prof_run σ l p :
  σ !! l = Some (OProf p) -> load_prof l σ = (Ok p, σ).
Proof. intros H. unfold load_prof. rewrite H. reflexivity. Qed.

Lemma load_idx_run σ l ix :
  σ !! l = Some (OIdx ix) -> load_idx l σ = (Ok ix, σ).
Proof. intros H. unfold load_idx. rewrite H. reflexivity. Qed.

(** *** Only allocation *)

Lemma extends_ret {A} (a : A) : extends (mret a : M A).
Proof. intros σ. reflexivity. Qed.

Lemma extends_lift {A} (r : res A) : extends (lift r).
Proof. intros σ. reflexivity. Qed.

Lemma extends_alloc (o : obj) : extends (alloc o).
Proof.
  intros σ. destruct (alloc_spec o σ) as (l & -> & F). simpl.
  apply insert_subseteq, F.
Qed.

Lemma extends_load_img (l : loc) : extends (load_img l).
Proof. intros σ. unfold load_img. destruct (σ !! l) as [[]|]; reflexivity. Qed.

Lemma extends_load_prof (l : loc) : extends (load_prof l).
Proof. intros σ. unfold load_prof. destruct (σ !! l) as [[]|]; reflexivity. Qed.

Lemma extends_load_idx (l : loc) : extends (load_idx l).
Proof. intros σ. unfold load_idx. destruct (σ !! l) as [[]|]; reflexivity. Qed.

Lemma extends_bind {A B} (c : M A) (k : A -> M B) :
  extends c -> (forall a, extends (k a)) -> extends (c ≫= k).
Proof.
  intros Hc Hk σ. unfold mbind, M_bind. specialize (Hc σ).
  destruct (c σ) as [[a|e] σ']; simpl in *; [|exact Hc].
  etrans; [exact Hc|apply Hk].
Qed.

Create HintDb extends discriminated.
#[local] Hint Resolve extends_ret extends_lift extends_alloc extends_load_img
  extends_load_prof extends_load_idx : extends.

Ltac only_allocates :=
  repeat first
    [ apply extends_bind; [|intros ?]
    | solve [auto with extends] ].

Lemma boundaryRectangle_st_extends (img : loc) (th : Z) :
  extends (boundaryRectangle_st img th).
Proof.
  unfold boundaryRectangle_st, np_where_lt_st, astype_uint8_st, mean_axis0_st,
    mean_axis1_st, np_nonzero_st, np_min_st, np_max_st.
  only_allocates.
Qed.

Lemma boundaryCircle_st_extends (img : loc) (th : Z) :
  extends (boundaryCircle_st img th).
Proof.
  unfold boundaryCircle_st, half_span_st, com_st, np_where_lt_st,
    astype_uint8_st, mean_axis0_st, mean_axis1_st, np_nonzero_st, np_min_st,
    np_max_st.
  only_allocates.
Qed.

(** *** What each call leaves in the store *)

Lemma np_where_lt_st_run σ img a th :
  σ !! img = Some (OImg a) ->
  exists l σ', np_where_lt_st img th σ = (Ok l, σ') /\ σ ⊆ σ' /\
    σ !! l = None /\ σ' !! l = Some (OImg (np_where_lt a th)).
Proof.
  intros H. unfold np_where_lt_st.
  rewrite (bind_ok _ _ _ _ _ (load_img_run _ _ _ H)). apply alloc_run.
Qed.

Lemma astype_uint8_st_run σ x a :
  σ !! x = Some (OImg a) ->
  exists l σ', astype_uint8_st x σ = (Ok l, σ') /\ σ ⊆ σ' /\
    σ !! l = None /\ σ' !! l = Some (OImg (astype_uint8 a)).
Proof.
  intros H. unfold astype_uint8_st.
  rewrite (bind_ok _ _ _ _ _ (load_img_run _ _ _ H)). apply alloc_run.
Qed.

Lemma mean_axis0_st_run σ x a :
  σ !! x = Some (OImg a) ->
  exists l σ', mean_axis0_st x σ = (Ok l, σ') /\ σ ⊆ σ' /\
    σ !! l = None /\ σ' !! l = Some (OProf (mean_axis0 a)).
Proof.
  intros H. unfold mean_axis0_st.
  rewrite (bind_ok _ _ _ _ _ (load_img_run _ _ _ H)). apply alloc_run.
Qed.

Lemma mean_axis1_st_run σ x a :
  σ !! x = Some (OImg a) ->
  exists l σ', mean_axis1_st x σ = (Ok l, σ') /\ σ ⊆ σ' /\
    σ !! l = None /\ σ' !! l = Some (OProf (mean_axis1 a)).
Proof.
  intros H. unfold mean_axis1_st.
  rewrite (bind_ok _ _ _ _ _ (load_img_run _ _ _ H)). apply alloc_run.
Qed.

Lemma np_nonzero_st_run σ x p :
  σ !! x = Some (OProf p) ->
  exists l σ', np_nonzero_st x σ = (Ok l, σ') /\ σ ⊆ σ' /\
    σ !! l = None /\ σ' !! l = Some (OIdx (np_nonzero p)).
Proof.
  intros H. unfold np_nonzero_st.
  rewrite (bind_ok _ _ _ _ _ (load_prof_run _ _ _ H)). apply alloc_run.
Qed.

Lemma np_min_st_run σ x ix :
  σ !! x = Some (OIdx ix) -> np_min_st x σ = (np_min ix, σ).
Proof.
  intros H. unfold np_min_st.
  rewrite (bind_ok _ _ _ _ _ (load_idx_run _ _ _ H)). reflexivity.
Qed.

Lemma np_max_st_run σ x ix :
  σ !! x = Some (OIdx ix) -> np_max_st x σ = (np_max ix, σ).
Proof.
  intros H. unfold np_max_st.
  rewrite (bind_ok _ _ _ _ _ (load_idx_run _ _ _ H)). reflexivity.
Qed.

(** The first statement: the mask is a new object holding
    [threshold a th]. *)
Lemma threshold_st_run σ img a th :
  σ !! img = Some (OImg a) ->
  exists w m σ1 σ2,
    np_where_lt_st img th σ = (Ok w, σ1) /\
    astype_uint8_st w σ1 = (Ok m, σ2) /\
    σ ⊆ σ2 /\ σ !! m = None /\ σ2 !! m = Some (OImg (threshold a th)).
Proof.
  intros H.
  destruct (np_where_lt_st_run σ img a th H) as (w & σ1 & E1 & S1 & _ & L1).
  destruct (astype_uint8_st_run σ1 w _ L1) as (m & σ2 & E2 & S2 & F2 & L2).
  exists w, m, σ1, σ2. split; [exact E1|]. split; [exact E2|].
  split; [etrans; eauto|]. split; [|exact L2].
  eapply lookup_weaken_None; eauto.
Qed.

Lemma res_bind_ok {A B} (a : A) (k : A -> res B) : (Ok a ≫= k) = k a.
Proof. reflexivity. Qed.

(** Carry what is known of a store over to a larger one. *)
Ltac advance S :=
  match type of S with
  | ?s1 ⊆ ?s2 =>
      repeat match goal with
      | H : s1 !! _ = Some _ |- _ => eapply lookup_weaken in H; [|exact S]
      | H : ?s0 ⊆ s1 |- _ =>
          let H' := fresh in
          assert (H' : s0 ⊆ s2) by (etrans; [exact H|exact S]);
          clear H; rename H' into H
      end;
      clear S
  end.

(** One call that allocates its result; the call is read off the goal. *)
Ltac run_alloc lem :=
  match goal with
  | |- context [ (?op ?x ≫= _) ?s ] =>
      match goal with
      | L : s !! x = Some _ |- _ =>
          let l := fresh "l" in let s' := fresh "σ" in
          let E := fresh "E" in let S := fresh "S" in let L' := fresh "L" in
          destruct (lem _ _ _ L) as (l & s' & E & S & _ & L');
          rewrite (bind_ok _ _ _ _ _ E); clear E; advance S
      end
  end.

(** One call of [np.min] or [np.max], which may raise. *)
Ltac run_reduce lem :=
  match goal with
  | |- context [ (?op ?x ≫= _) ?s ] =>
      match goal with
      | L : s !! x = Some _ |- _ =>
          let E := fresh "E" in
          pose proof (lem _ _ _ L) as E;
          match type of E with
          | _ = (?r, _) =>
              let v := fresh "v" in let e := fresh "e" in
              destruct r as [v|e];
              [ rewrite (bind_ok _ _ _ _ _ E), res_bind_ok; clear E
              | rewrite (bind_raise _ _ _ _ _ E); exact eq_refl ]
          end
      end
  end.

(** The last statement builds the array that is returned. *)
Ltac run_last :=
  match goal with
  | |- context [ (alloc ?o ≫= _) ?s ] =>
      let l := fresh "l" in let s' := fresh "σ" in
      let E := fresh "E" in let S := fresh "S" in
      let F := fresh "F" in let L' := fresh "L" in
      destruct (alloc_run o s) as (l & s' & E & S & F & L');
      rewrite (bind_ok _ _ _ _ _ E); exists l; split; [reflexivity|];
      split; [eapply lookup_weaken_None; eauto|exact L']
  end.

(** The store reading computes what [boundaryRectangle] computes. *)
Lemma boundaryRectangle_st_run σ img a th :
  σ !! img = Some (OImg a) ->
  match boundaryRectangle a th with
  | Ok (tl, sh) =>
      exists l, (boundaryRectangle_st img th σ).1 = Ok (l, sh) /\
                σ !! l = None /\
                (boundaryRectangle_st img th σ).2 !! l = Some (OIdx [tl.1; tl.2])
  | Raise e => (boundaryRectangle_st img th σ).1 = Raise e
  end.
Proof.
  intros H. assert (S0 : σ ⊆ σ) by reflexivity.
  unfold boundaryRectangle_st, boundaryRectangle, threshold. cbv zeta.
  destruct (np_where_lt_st_run σ img a th H) as (w & σ1 & E & S & _ & Lw).
  rewrite (bind_ok _ _ _ _ _ E). clear E. advance S.
  run_alloc astype_uint8_st_run.
  run_alloc mean_axis0_st_run.
  run_alloc mean_axis1_st_run.
  run_alloc np_nonzero_st_run.
  run_reduce np_min_st_run.
  run_alloc np_nonzero_st_run.
  run_reduce np_max_st_run.
  run_alloc np_nonzero_st_run.
  run_reduce np_min_st_run.
  run_alloc np_nonzero_st_run.
  run_reduce np_max_st_run.
  run_last.
Qed.

Lemma com_st_run σ x p :
  σ !! x = Some (OProf p) ->
  exists σ', com_st x σ = (Ok (com p), σ') /\ σ ⊆ σ'.
Proof.
  intros H. unfold com_st.
  rewrite (bind_ok _ _ _ _ _ (load_prof_run _ _ _ H)).
  destruct (alloc_run (OIdx (np_arange (length p))) σ)
    as (ar & σ1 & E1 & S1 & _ & L1).
  rewrite (bind_ok _ _ _ _ _ E1), (bind_ok _ _ _ _ _ (load_idx_run _ _ _ L1)).
  destruct (alloc_run (OProf (np_multiply (np_arange (length p)) p)) σ1)
    as (pr & σ2 & E2 & S2 & _ & L2).
  rewrite (bind_ok _ _ _ _ _ E2), (bind_ok _ _ _ _ _ (load_prof_run _ _ _ L2)).
  exists σ2. split; [reflexivity|etrans; eauto].
Qed.

Lemma half_span_st_run σ x p :
  σ !! x = Some (OProf p) ->
  exists σ', half_span_st x σ = (half_span p, σ') /\ σ ⊆ σ'.
Proof.
  intros H. unfold half_span_st, half_span.
  destruct (np_nonzero_st_run σ x p H) as (nz & σ1 & E1 & S1 & _ & L1).
  rewrite (bind_ok _ _ _ _ _ E1).
  pose proof (np_max_st_run _ _ _ L1) as Emx.
  destruct (np_max (np_nonzero p)) as [mx|e].
  - rewrite (bind_ok _ _ _ _ _ Emx), res_bind_ok.
    eapply lookup_weaken in H; [|exact S1].
    destruct (np_nonzero_st_run σ1 x p H) as (nz' & σ2 & E2 & S2 & _ & L2).
    rewrite (bind_ok _ _ _ _ _ E2).
    pose proof (np_min_st_run _ _ _ L2) as Emn.
    destruct (np_min (np_nonzero p)) as [mn|e].
    + rewrite (bind_ok _ _ _ _ _ Emn). exists σ2.
      split; [reflexivity|etrans; eauto].
    + rewrite (bind_raise _ _ _ _ _ Emn). exists σ2.
      split; [reflexivity|etrans; eauto].
  - rewrite (bind_raise _ _ _ _ _ Emx). exists σ1. split; [reflexivity|exact S1].
Qed.

(** A call that returns a scalar and may raise. *)
Ltac run_scalar lem :=
  match goal with
  | |- context [ (?op ?x ≫= _) ?s ] =>
      match goal with
      | L : s !! x = Some _ |- _ =>
          let s' := fresh "σ" in let E := fresh "E" in let S := fresh "S" in
          destruct (lem _ _ _ L) as (s' & E & S);
          match type of E with
          | _ = (?r, _) =>
              first
                [ rewrite (bind_ok _ _ _ _ _ E); clear E; advance S
                | let v := fresh "v" in let e := fresh "e" in
                  destruct r as [v|e];
                  [ rewrite (bind_ok _ _ _ _ _ E); clear E; advance S
                  | rewrite (bind_raise _ _ _ _ _ E); exact eq_refl ] ]
          end
      end
  end.

(** The store reading computes what [boundaryCircle] computes. *)
Lemma boundaryCircle_st_run σ img a th :
  σ !! img = Some (OImg a) ->
  match boundaryCircle a th with
  | Ok (c, radius) =>
      exists l, (boundaryCircle_st img th σ).1 = Ok (l, radius) /\
                σ !! l = None /\
                (boundaryCircle_st img th σ).2 !! l = Some (OProf [c.1; c.2])
  | Raise e => (boundaryCircle_st img th σ).1 = Raise e
  end.
Proof.
  intros H. assert (S0 : σ ⊆ σ) by reflexivity.
  unfold boundaryCircle_st, boundaryCircle, radii, threshold. cbv zeta.
  destruct (np_where_lt_st_run σ img a th H) as (w & σ1 & E & S & _ & Lw).
  rewrite (bind_ok _ _ _ _ _ E). clear E. advance S.
  run_alloc astype_uint8_st_run.
  run_alloc mean_axis0_st_run.
  run_alloc mean_axis1_st_run.
  run_scalar com_st_run.
  run_scalar com_st_run.
  match goal with
  | L : ?s !! ?x = Some (OProf (mean_axis0 _)) |- _ =>
      destruct (half_span_st_run _ _ _ L) as (s1 & E1 & S1);
      pose proof (lookup_weaken _ _ _ _ L S1) as L';
      destruct (half_span_st_run _ _ _ L') as (s2 & E2 & S2)
  end.
  destruct (half_span (mean_axis0 (astype_uint8 (np_where_lt a th))))
    as [r|e].
  - rewrite (bind_ok _ _ _ _ _ E1), (bind_ok _ _ _ _ _ E2).
    clear E1 E2 L'. advance S1. advance S2. run_last.
  - rewrite (bind_raise _ _ _ _ _ E1). exact eq_refl.
Qed.

Lemma mask_allocated_rect σ img a th :
  σ !! img = Some (OImg a) ->
  exists m, σ !! m = None /\
    (boundaryRectangle_st img th σ).2 !! m = Some (OImg (threshold a th)).
Proof.
  intros H.
  destruct (threshold_st_run σ img a th H) as (w & m & σ1 & σ2 & E1 & E2 & _ & F & L).
  exists m. split; [exact F|]. unfold boundaryRectangle_st.
  rewrite (bind_ok _ _ _ _ _ E1), (bind_ok _ _ _ _ _ E2).
  eapply lookup_weaken; [exact L|].
  match goal with
  | |- ?s ⊆ (?c ?s).2 => cut (extends c); [intros Hx; apply Hx|]
  end.
  unfold mean_axis0_st, mean_axis1_st, np_nonzero_st, np_min_st, np_max_st.
  only_allocates.
Qed.

Lemma mask_allocated_circle σ img a th :
  σ !! img = Some (OImg a) ->
  exists m, σ !! m = None /\
    (boundaryCircle_st img th σ).2 !! m = Some (OImg (threshold a th)).
Proof.
  intros H.
  destruct (threshold_st_run σ img a th H) as (w & m & σ1 & σ2 & E1 & E2 & _ & F & L).
  exists m. split; [exact F|]. unfold boundaryCircle_st.
  rewrite (bind_ok _ _ _ _ _ E1), (bind_ok _ _ _ _ _ E2).
  eapply lookup_weaken; [exact L|].
  match goal with
  | |- ?s ⊆ (?c ?s).2 => cut (extends c); [intros Hx; apply Hx|]
  end.
  unfold half_span_st, com_st, mean_axis0_st, mean_axis1_st, np_nonzero_st,
    np_min_st, np_max_st.
  only_allocates.
Qed.

(** C9.  Both detectors leave the caller's array as it was, whether they
    return or fail: after the call the reference [img] still holds the same
    array.  The mask is a new object, at a location that was not in use
    before the call. *)
Theorem detectors_leave_input_unchanged
  (σ : gmap loc obj) (img : loc) (a : array2 Z) (th : Z) :
  σ !! img = Some (OImg a) ->
  (boundaryRectangle_st img th σ).2 !! img = Some (OImg a) /\
  (boundaryCircle_st img th σ).2 !! img = Some (OImg a) /\
  (exists m, σ !! m = None /\
     (boundaryRectangle_st img th σ).2 !! m = Some (OImg (threshold a th))) /\
  (exists m, σ !! m = None /\
     (boundaryCircle_st img th σ).2 !! m = Some (OImg (threshold a th))).
Proof.
  intros H. split; [|split; [|split]].
  - eapply lookup_weaken; [exact H|apply boundaryRectangle_st_extends].
  - eapply lookup_weaken; [exact H|apply boundaryCircle_st_extends].
  - apply mask_allocated_rect, H.
  - apply mask_allocated_circle, H.
Qed.

(** ** The theorems at concrete images *)

Lemma small_image_wf : wf small_image.
Proof. apply wfb_wf. reflexivity. Defined.

Lemma small_image_lit (th : Z) : th <= 20 -> exists i j, lit small_image th i j.
Proof. intros H. exists 0%nat, 1%nat, 20. split; [reflexivity|exact H]. Defined.

Lemma boundaryRectangle_smallest_box_witness :
  wf small_image /\ (exists i j, lit small_image 10 i j) /\
  exists top left height width,
    boundaryRectangle small_image 10 = Ok ((top, left), (height, width)) /\
    (forall i j, lit small_image 10 i j ->
       top <= Z.of_nat i <= top + height - 1 /\
       left <= Z.of_nat j <= left + width - 1) /\
    row_touched small_image 10 top /\
    row_touched small_image 10 (top + height - 1) /\
    col_touched small_image 10 left /\
    col_touched small_image 10 (left + width - 1).
Proof.
  assert (Hlit : exists i j, lit small_image 10 i j)
    by (apply small_image_lit; lia).
  split; [exact small_image_wf|]. split; [exact Hlit|].
  exact (boundaryRectangle_smallest_box small_image 10 small_image_wf Hlit).
Defined.

Lemma boundaryCircle_radius_is_column_half_span_witness :
  wf small_image /\ (exists i j, lit small_image 10 i j) /\
  exists center left right,
    least (col_touched small_image 10) left /\
    greatest (col_touched small_image 10) right /\
    boundaryCircle small_image 10 =
      Ok (center, Fin (inject_Z (right - left) / 2)) /\
    forall row_mean,
      radii (mean_axis0 (threshold small_image 10)) row_mean =
        Ok (Fin (inject_Z (right - left) / 2),
            Fin (inject_Z (right - left) / 2)).
Proof.
  assert (Hlit : exists i j, lit small_image 10 i j)
    by (apply small_image_lit; lia).
  split; [exact small_image_wf|]. split; [exact Hlit|].
  exact (boundaryCircle_radius_is_column_half_span small_image 10
           small_image_wf Hlit).
Defined.

Lemma threshold_elementwise_witness :
  pixel small_image 0 1 = Some 20 /\
  (10 <= 20 -> pixel (threshold small_image 10) 0 1 = Some 255) /\
  (20 < 10 -> pixel (threshold small_image 10) 0 1 = Some 0) /\
  nrows (threshold small_image 10) = nrows small_image /\
  ncols (threshold small_image 10) = ncols small_image /\
  (forall i' j' m,
     pixel (threshold small_image 10) i' j' = Some m -> 0 <= m < 256).
Proof.
  split; [reflexivity|].
  apply (threshold_elementwise small_image 10 0 1 20). reflexivity.
Defined.

Lemma boundaryRectangle_area_antitone_witness :
  wf small_image /\ 10 <= 15 /\
  (exists i j, lit small_image 10 i j) /\
  (exists i j, lit small_image 15 i j) /\
  exists tl1 h1 w1 tl2 h2 w2,
    boundaryRectangle small_image 10 = Ok (tl1, (h1, w1)) /\
    boundaryRectangle small_image 15 = Ok (tl2, (h2, w2)) /\
    h2 * w2 <= h1 * w1.
Proof.
  assert (H1 : exists i j, lit small_image 10 i j)
    by (apply small_image_lit; lia).
  assert (H2 : exists i j, lit small_image 15 i j)
    by (apply small_image_lit; lia).
  assert (Hle : 10 <= 15) by lia.
  split; [exact small_image_wf|]. split; [exact Hle|].
  split; [exact H1|]. split; [exact H2|].
  exact (boundaryRectangle_area_antitone small_image 10 15
           small_image_wf Hle H1 H2).
Defined.

Lemma threshold_idempotent_witness :
  Forall binary (rows small_mask) /\ 0 < 128 <= 255 /\
  threshold small_mask 128 = small_mask.
Proof.
  assert (Hb : Forall binary (rows small_mask)).
  { unfold binary. simpl.
    repeat match goal with |- Forall _ _ => constructor end; auto. }
  assert (Hth : 0 < 128 <= 255) by lia.
  split; [exact Hb|]. split; [exact Hth|].
  exact (threshold_idempotent small_mask 128 Hb Hth).
Defined.

Lemma small_images_same_lit (i j : nat) (x y : Z) :
  pixel small_image i j = Some x -> pixel small_image' i j = Some y ->
  (10 <= x <-> 10 <= y).
Proof.
  unfold pixel.
  destruct i as [|[|i]]; simpl; try discriminate;
    destruct j as [|[|j]]; simpl; try discriminate;
    intros [= <-] [= <-]; lia.
Defined.

Lemma detectors_depend_on_lit_positions_only_witness :
  wf small_image /\ wf small_image' /\
  nrows small_image = nrows small_image' /\
  ncols small_image = ncols small_image' /\
  boundaryRectangle small_image 10 = boundaryRectangle small_image' 10 /\
  boundaryCircle small_image 10 = boundaryCircle small_image' 10.
Proof.
  assert (Hwf' : wf small_image') by (apply wfb_wf; reflexivity).
  split; [exact small_image_wf|]. split; [exact Hwf'|].
  split; [reflexivity|]. split; [reflexivity|].
  exact (detectors_depend_on_lit_positions_only small_image small_image' 10
           small_image_wf Hwf' eq_refl eq_refl small_images_same_lit).
Defined.

Lemma no_lit_pixel_raises_ValueError_witness :
  wf zero_image /\ (0 < nrows zero_image)%nat /\ (0 < ncols zero_image)%nat /\
  boundaryRectangle zero_image 10 = Raise ValueError /\
  boundaryCircle zero_image 10 = Raise ValueError.
Proof.
  assert (Hwf : wf zero_image) by (apply wfb_wf; reflexivity).
  assert (Hr : (0 < nrows zero_image)%nat) by (vm_compute; lia).
  assert (Hc : (0 < ncols zero_image)%nat) by (vm_compute; lia).
  split; [exact Hwf|]. split; [exact Hr|]. split; [exact Hc|].
  exact (no_lit_pixel_raises_ValueError zero_image 10 Hwf Hr Hc
           zero_image_dark).
Defined.

Lemma zero_length_dimension_witness :
  wf (Array2 3 ([] : list (list Z))) /\
  boundaryRectangle (Array2 3 []) 10 = Raise ValueError /\
  (ncols (Array2 3 ([] : list (list Z))) = 0%nat ->
   boundaryCircle (Array2 3 []) 10 = Raise ValueError) /\
  (nrows (Array2 3 ([] : list (list Z))) = 0%nat ->
   (0 < ncols (Array2 3 ([] : list (list Z))))%nat ->
   boundaryCircle (Array2 3 []) 10 =
     Ok ((NaN, NaN),
         Fin (inject_Z (Z.of_nat (ncols (Array2 3 ([] : list (list Z)))) - 1)
              / 2))).
Proof.
  assert (Hwf : wf (Array2 3 ([] : list (list Z)))) by constructor.
  split; [exact Hwf|].
  apply (zero_length_dimension (Array2 3 []) 10 Hwf). left. reflexivity.
Defined.

Lemma detectors_leave_input_unchanged_witness :
  small_store !! 0%nat = Some (OImg small_image) /\
  (boundaryRectangle_st 0%nat 10 small_store).2 !! 0%nat =
    Some (OImg small_image) /\
  (boundaryCircle_st 0%nat 10 small_store).2 !! 0%nat =
    Some (OImg small_image).
Proof.
  assert (H : small_store !! 0%nat = Some (OImg small_image)) by reflexivity.
  split; [exact H|].
  destruct (detectors_leave_input_unchanged small_store 0%nat small_image 10 H)
    as (Hr & Hc & _).
  split; [exact Hr|exact Hc].
Defined.

(** ** Further properties of the detectors *)

Lemma least_unique (P : Z -> Prop) (m m' : Z) :
  least P m -> least P m' -> m = m'.
Proof. intros [Hm Hle] [Hm' Hle']. specialize (Hle _ Hm'). specialize (Hle' _ Hm). lia. Qed.

Lemma greatest_unique (P : Z -> Prop) (m m' : Z) :
  greatest P m -> greatest P m' -> m = m'.
Proof. intros [Hm Hle] [Hm' Hle']. specialize (Hle _ Hm'). specialize (Hle' _ Hm). lia. Qed.

Lemma boundaryRectangle_dark (a : array2 Z) (th : Z) :
  wf a -> (forall i j, ~ lit a th i j) ->
  boundaryRectangle a th = Raise ValueError.
Proof.
  intros Hwf Hno. unfold boundaryRectangle. cbv zeta.
  destruct (Nat.eq_dec (ncols a) 0%nat) as [Hc|Hc].
  - assert (Hcol : mean_axis0 (threshold a th) = []).
    { unfold mean_axis0. rewrite threshold_ncols, Hc. reflexivity. }
    rewrite Hcol.
    destruct (np_nonzero (mean_axis1 (threshold a th))); reflexivity.
  - rewrite (no_lit_rows_empty a th Hwf) by (auto; lia). reflexivity.
Qed.

Lemma boundaryCircle_dark (a : array2 Z) (th : Z) :
  wf a -> (0 < nrows a)%nat -> (forall i j, ~ lit a th i j) ->
  boundaryCircle a th = Raise ValueError.
Proof.
  intros Hwf Hr Hno. unfold boundaryCircle, radii, half_span. cbv zeta.
  rewrite (no_lit_cols_empty a th Hwf Hr Hno). reflexivity.
Qed.

Lemma boundaryCircle_lit (a : array2 Z) (th : Z) :
  wf a -> (exists i j, lit a th i j) ->
  exists left right,
    least (col_touched a th) left /\ greatest (col_touched a th) right /\
    boundaryCircle a th =
      Ok ((com (mean_axis1 (threshold a th)), com (mean_axis0 (threshold a th))),
          Fin (inject_Z (right - left) / 2)).
Proof.
  intros Hwf Hlit.
  destruct (cols_extremes a th Hwf Hlit) as (left & right & Hl & Hr & Hll & Hgr).
  exists left, right. split; [exact Hll|]. split; [exact Hgr|].
  unfold boundaryCircle, radii, half_span. cbv zeta. rewrite Hl, Hr.
  cbn [mbind res_bind]. unfold mret, res_ret, mbind, res_bind.
  rewrite half_span_value, py_max_same. reflexivity.
Qed.

(** [boundaryRectangle] fails exactly on the images without a pixel at or
    above the threshold, empty images included, and [ValueError] is the only
    exception it raises. *)
Theorem boundaryRectangle_fails_iff_dark (a : array2 Z) (th : Z) :
  wf a ->
  ((forall i j, ~ lit a th i j) -> boundaryRectangle a th = Raise ValueError) /\
  (forall e, boundaryRectangle a th = Raise e ->
     e = ValueError /\ forall i j, ~ lit a th i j).
Proof.
  intros Hwf. split; [apply boundaryRectangle_dark, Hwf|].
  intros e He.
  assert (Hno : forall i j, ~ lit a th i j).
  { intros i j Hij.
    destruct (boundaryRectangle_extremes a th Hwf (ex_intro _ i (ex_intro _ j Hij)))
      as (t & b & l & r & Heq & _). congruence. }
  split; [|exact Hno].
  rewrite (boundaryRectangle_dark a th Hwf Hno) in He. congruence.
Qed.

(** On an image with at least one row, [boundaryCircle] fails exactly when
    no pixel is at or above the threshold, and [ValueError] is the only
    exception it raises. *)
Theorem boundaryCircle_fails_iff_dark (a : array2 Z) (th : Z) :
  wf a -> (0 < nrows a)%nat ->
  ((forall i j, ~ lit a th i j) -> boundaryCircle a th = Raise ValueError) /\
  (forall e, boundaryCircle a th = Raise e ->
     e = ValueError /\ forall i j, ~ lit a th i j).
Proof.
  intros Hwf Hr. split; [apply boundaryCircle_dark; assumption|].
  intros e He.
  assert (Hno : forall i j, ~ lit a th i j).
  { intros i j Hij.
    destruct (boundaryCircle_lit a th Hwf (ex_intro _ i (ex_intro _ j Hij)))
      as (l & r & _ & _ & Heq). congruence. }
  split; [|exact Hno].
  rewrite (boundaryCircle_dark a th Hwf Hr Hno) in He. congruence.
Qed.

(** Whenever [boundaryRectangle] returns a box of width [w],
    [boundaryCircle] returns too, and its radius is [(w - 1) / 2]: the
    radius is fixed by the width of the box and ignores its height.  This
    holds for every array, rectangular or not. *)
Theorem boundaryCircle_radius_from_width
  (a : array2 Z) (th : Z) (tl : Z * Z) (h w : Z) :
  boundaryRectangle a th = Ok (tl, (h, w)) ->
  exists center,
    boundaryCircle a th = Ok (center, Fin (inject_Z (w - 1) / 2)).
Proof.
  unfold boundaryRectangle, boundaryCircle, radii, half_span. cbv zeta.
  destruct (np_min (np_nonzero (mean_axis1 (threshold a th)))) as [top|e];
    [|discriminate].
  destruct (np_max (np_nonzero (mean_axis1 (threshold a th)))) as [bottom|e];
    [|discriminate].
  destruct (np_min (np_nonzero (mean_axis0 (threshold a th)))) as [left|e];
    [|discriminate].
  destruct (np_max (np_nonzero (mean_axis0 (threshold a th)))) as [right|e];
    [|discriminate].
  unfold mret, res_ret, mbind, res_bind. intros [= <- <- <-].
  rewrite half_span_value, py_max_same.
  replace (right - left + 1 - 1) with (right - left) by lia.
  eexists. reflexivity.
Qed.

(** The box lies inside the image: its corner is a valid pixel position,
    its height and width are at least 1, and it ends at or before the last
    row and the last column. *)
Theorem boundaryRectangle_inside_image (a : array2 Z) (th : Z) :
  wf a -> (exists i j, lit a th i j) ->
  exists top left height width,
    boundaryRectangle a th = Ok ((top, left), (height, width)) /\
    0 <= top /\ 1 <= height /\ top + height <= Z.of_nat (nrows a) /\
    0 <= left /\ 1 <= width /\ left + width <= Z.of_nat (ncols a).
Proof.
  intros Hwf Hlit.
  destruct (boundaryRectangle_extremes a th Hwf Hlit)
    as (t & b & l & r & Heq & [Pt Ht] & [Pb _] & [Pl Hl] & [Pr _]).
  exists t, l, (b - t + 1), (r - l + 1). split; [exact Heq|].
  specialize (Ht _ Pb). specialize (Hl _ Pr).
  destruct Pt as (i1 & j1 & -> & x1 & Hp1 & _).
  destruct Pb as (i2 & j2 & -> & x2 & Hp2 & _).
  destruct Pl as (i3 & j3 & -> & x3 & Hp3 & _).
  destruct Pr as (i4 & j4 & -> & x4 & Hp4 & _).
  apply (pixel_bounds _ _ _ _ Hwf) in Hp1, Hp2, Hp3, Hp4. lia.
Qed.

Lemma lit_weaker (a : array2 Z) (th1 th2 : Z) :
  th1 <= th2 ->
  (forall r, row_touched a th2 r -> row_touched a th1 r) /\
  (forall c, col_touched a th2 c -> col_touched a th1 c).
Proof.
  intros Hle. split.
  - intros r (i & j & -> & H). exists i, j. eauto using lit_mono.
  - intros c (i & j & -> & H). exists i, j. eauto using lit_mono.
Qed.

(** Raising the threshold shrinks the box inside the previous one: for
    [th1 <= th2] the box at [th2] starts no earlier and ends no later than
    the box at [th1], in rows and in columns. *)
Theorem boundaryRectangle_nested (a : array2 Z) (th1 th2 : Z) :
  wf a -> th1 <= th2 -> (exists i j, lit a th2 i j) ->
  exists t1 l1 h1 w1 t2 l2 h2 w2,
    boundaryRectangle a th1 = Ok ((t1, l1), (h1, w1)) /\
    boundaryRectangle a th2 = Ok ((t2, l2), (h2, w2)) /\
    t1 <= t2 /\ t2 + h2 <= t1 + h1 /\ l1 <= l2 /\ l2 + w2 <= l1 + w1.
Proof.
  intros Hwf Hle H2.
  assert (H1 : exists i j, lit a th1 i j).
  { destruct H2 as (i & j & H). exists i, j. eauto using lit_mono. }
  destruct (lit_weaker a th1 th2 Hle) as [Hrow Hcol].
  destruct (boundaryRectangle_extremes a th1 Hwf H1)
    as (t1 & b1 & l1 & r1 & E1 & [_ Ht1] & [_ Hb1] & [_ Hl1] & [_ Hr1]).
  destruct (boundaryRectangle_extremes a th2 Hwf H2)
    as (t2 & b2 & l2 & r2 & E2 & [Pt2 _] & [Pb2 _] & [Pl2 _] & [Pr2 _]).
  exists t1, l1, (b1 - t1 + 1), (r1 - l1 + 1), t2, l2, (b2 - t2 + 1), (r2 - l2 + 1).
  split; [exact E1|]. split; [exact E2|].
  specialize (Ht1 _ (Hrow _ Pt2)). specialize (Hb1 _ (Hrow _ Pb2)).
  specialize (Hl1 _ (Hcol _ Pl2)). specialize (Hr1 _ (Hcol _ Pr2)). lia.
Qed.

Lemma half_le (d1 d2 : Z) :
  d1 <= d2 -> (inject_Z d1 / 2 <= inject_Z d2 / 2)%Q.
Proof.
  intros H. unfold Qle, Qdiv, Qmult, Qinv, inject_Z. simpl. lia.
Qed.

Lemma half_nonneg (d : Z) : 0 <= d -> (0 <= inject_Z d / 2)%Q.
Proof.
  intros H. unfold Qle, Qdiv, Qmult, Qinv, inject_Z. simpl. lia.
Qed.

(** Raising the threshold never enlarges the circle: for [th1 <= th2] the
    radius at [th2] is at most the radius at [th1], and no radius is
    negative. *)
Theorem boundaryCircle_radius_antitone (a : array2 Z) (th1 th2 : Z) :
  wf a -> th1 <= th2 -> (exists i j, lit a th2 i j) ->
  exists c1 r1 c2 r2,
    boundaryCircle a th1 = Ok (c1, Fin r1) /\
    boundaryCircle a th2 = Ok (c2, Fin r2) /\
    (0 <= r2)%Q /\ (r2 <= r1)%Q.
Proof.
  intros Hwf Hle H2.
  assert (H1 : exists i j, lit a th1 i j).
  { destruct H2 as (i & j & H). exists i, j. eauto using lit_mono. }
  destruct (lit_weaker a th1 th2 Hle) as [_ Hcol].
  destruct (boundaryCircle_lit a th1 Hwf H1) as (l1 & r1 & [_ Hl1] & [_ Hr1] & E1).
  destruct (boundaryCircle_lit a th2 Hwf H2) as (l2 & r2 & [Pl2 Hl2] & [Pr2 _] & E2).
  eexists _, _, _, _. split; [exact E1|]. split; [exact E2|].
  specialize (Hl1 _ (Hcol _ Pl2)). specialize (Hr1 _ (Hcol _ Pr2)).
  specialize (Hl2 _ Pr2).
  split; [apply half_nonneg|apply half_le]; lia.
Qed.

(** The radius is between 0 and [(W - 1) / 2], where [W] is the number of
    columns of the image. *)
Theorem boundaryCircle_radius_range (a : array2 Z) (th : Z) :
  wf a -> (exists i j, lit a th i j) ->
  exists center r,
    boundaryCircle a th = Ok (center, Fin r) /\
    (0 <= r)%Q /\ (r <= inject_Z (Z.of_nat (ncols a) - 1) / 2)%Q.
Proof.
  intros Hwf Hlit.
  destruct (boundaryCircle_lit a th Hwf Hlit) as (l & r & [Pl Hl] & [Pr _] & E).
  eexists _, _. split; [exact E|].
  specialize (Hl _ Pr).
  destruct Pl as (i1 & j1 & -> & x1 & Hp1 & _).
  destruct Pr as (i2 & j2 & -> & x2 & Hp2 & _).
  apply (pixel_bounds _ _ _ _ Hwf) in Hp1, Hp2.
  split; [apply half_nonneg|apply half_le]; lia.
Qed.

Lemma threshold_binary (a : array2 Z) (th : Z) :
  Forall binary (rows (threshold a th)).
Proof.
  rewrite threshold_rows, Forall_fmap. apply Forall_forall. intros r _.
  apply binary_mask.
Qed.

Lemma threshold_fixes_binary (m : array2 Z) (th : Z) :
  Forall binary (rows m) -> 0 < th <= 255 -> threshold m th = m.
Proof.
  intros Hb Hth. apply array2_eq; [reflexivity|].
  rewrite threshold_rows. rewrite <- (list_fmap_id (rows m)) at 2.
  apply Forall_fmap_ext. eapply Forall_impl; [exact Hb|].
  intros r Hr. simpl. rewrite <- (list_fmap_id r) at 2.
  apply Forall_fmap_ext. eapply Forall_impl; [exact Hr|].
  intros x Hx. simpl. unfold mask_value.
  destruct Hx as [-> | ->]; destruct (Z.leb_spec th 0), (Z.leb_spec th 255);
    try reflexivity; lia.
Qed.

(** Thresholding twice is thresholding once: a mask thresholded again with
    any [th'] in (0, 255] is the same mask, so the detectors give on a mask
    what they give on the image it came from. *)
Theorem detectors_on_mask (a : array2 Z) (th th' : Z) :
  0 < th' <= 255 ->
  threshold (threshold a th) th' = threshold a th /\
  boundaryRectangle (threshold a th) th' = boundaryRectangle a th /\
  boundaryCircle (threshold a th) th' = boundaryCircle a th.
Proof.
  intros Hth.
  assert (Heq : threshold (threshold a th) th' = threshold a th)
    by (apply threshold_fixes_binary; [apply threshold_binary|exact Hth]).
  split; [exact Heq|].
  unfold boundaryRectangle, boundaryCircle. rewrite Heq. split; reflexivity.
Qed.

Lemma pixel_exists {A} (a : array2 A) (i j : nat) :
  wf a -> (i < nrows a)%nat -> (j < ncols a)%nat ->
  exists x, pixel a i j = Some x.
Proof.
  intros Hwf Hi Hj. unfold pixel.
  destruct (lookup_lt_is_Some_2 (rows a) i Hi) as [r Hr]. rewrite Hr. simpl.
  unfold wf in Hwf. rewrite Forall_lookup in Hwf.
  apply lookup_lt_is_Some_2. rewrite (Hwf _ _ Hr). exact Hj.
Qed.

(** On an image whose pixels are all at or above the threshold the box is
    the whole frame, [(0, 0)] with shape [(H, W)], and the radius is
    [(W - 1) / 2]. *)
Theorem fully_lit_image (a : array2 Z) (th : Z) :
  wf a -> (0 < nrows a)%nat -> (0 < ncols a)%nat ->
  (forall i j x, pixel a i j = Some x -> th <= x) ->
  boundaryRectangle a th =
    Ok ((0, 0), (Z.of_nat (nrows a), Z.of_nat (ncols a))) /\
  exists center,
    boundaryCircle a th =
      Ok (center, Fin (inject_Z (Z.of_nat (ncols a) - 1) / 2)).
Proof.
  intros Hwf Hr Hc Hall.
  assert (Hlit : forall i j, (i < nrows a)%nat -> (j < ncols a)%nat ->
                             lit a th i j).
  { intros i j Hi Hj. destruct (pixel_exists a i j Hwf Hi Hj) as [x Hx].
    exists x. split; [exact Hx|eapply Hall; eauto]. }
  assert (Hfirst : lit a th 0 0) by (apply Hlit; lia).
  assert (Hlast : lit a th (nrows a - 1) (ncols a - 1)) by (apply Hlit; lia).
  assert (Hex : exists i j, lit a th i j) by eauto.
  destruct (boundaryRectangle_extremes a th Hwf Hex)
    as (t & b & l & r & Heq & [Pt Ht] & [Pb Hb] & [Pl Hl] & [Pr Hrr]).
  assert (Ht0 : t = 0).
  { specialize (Ht 0 (ex_intro _ 0%nat (ex_intro _ 0%nat (conj eq_refl Hfirst)))).
    destruct Pt as (i & j & -> & _). lia. }
  assert (Hl0 : l = 0).
  { specialize (Hl 0 (ex_intro _ 0%nat (ex_intro _ 0%nat (conj eq_refl Hfirst)))).
    destruct Pl as (i & j & -> & _). lia. }
  assert (Hb1 : b = Z.of_nat (nrows a) - 1).
  { specialize (Hb _ (ex_intro _ _ (ex_intro _ _ (conj eq_refl Hlast)))).
    destruct Pb as (i & j & -> & x & Hp & _).
    apply (pixel_bounds _ _ _ _ Hwf) in Hp. lia. }
  assert (Hr1 : r = Z.of_nat (ncols a) - 1).
  { assert (Hc' : col_touched a th (Z.of_nat (ncols a - 1)))
      by (exists (nrows a - 1)%nat, (ncols a - 1)%nat; auto).
    specialize (Hrr _ Hc').
    destruct Pr as (i & j & -> & x & Hp & _).
    apply (pixel_bounds _ _ _ _ Hwf) in Hp. lia. }
  split.
  - rewrite Heq, Ht0, Hl0, Hb1, Hr1. repeat f_equal; lia.
  - destruct (boundaryCircle_lit a th Hwf Hex) as (l' & r' & Pl' & Pr' & E).
    assert (l' = l) by (eapply least_unique; [exact Pl'|split; assumption]).
    assert (r' = r) by (eapply greatest_unique; [exact Pr'|split; assumption]).
    subst l' r'. eexists. rewrite E.
    replace (r - l) with (Z.of_nat (ncols a) - 1) by lia. reflexivity.
Qed.

(** *** The centre of mass *)









(** *** Results in the store *)

(** Run on a store, [boundaryRectangle] returns what the function on
    arrays computes: the same shape, the same failure, and the corner in an
    array that did not exist before the call, so that the result never
    aliases the input or any other array of the caller. *)
Theorem boundaryRectangle_st_returns_fresh
  (σ : gmap loc obj) (img : loc) (a : array2 Z) (th : Z) :
  σ !! img = Some (OImg a) ->
  (forall l sh, (boundaryRectangle_st img th σ).1 = Ok (l, sh) ->
     σ !! l = None /\
     exists top left,
       boundaryRectangle a th = Ok ((top, left), sh) /\
       (boundaryRectangle_st img th σ).2 !! l = Some (OIdx [top; left])) /\
  (forall e, (boundaryRectangle_st img th σ).1 = Raise e ->
     boundaryRectangle a th = Raise e).
Proof.
  intros H. pose proof (boundaryRectangle_st_run σ img a th H) as Hrun.
  destruct (boundaryRectangle a th) as [[[top left] sh']|e'].
  - destruct Hrun as (l' & E & F & L). split.
    + intros l sh Hres. rewrite E in Hres. injection Hres as <- <-.
      split; [exact F|]. exists top, left. split; [reflexivity|exact L].
    + intros e Hres. rewrite E in Hres. discriminate Hres.
  - split.
    + intros l sh Hres. rewrite Hrun in Hres. discriminate Hres.
    + intros e Hres. rewrite Hrun in Hres. injection Hres as <-. reflexivity.
Qed.

(** Run on a store, [boundaryCircle] returns what the function on arrays
    computes: the same radius, the same failure, and the centre in an array
    that did not exist before the call. *)
Theorem boundaryCircle_st_returns_fresh
  (σ : gmap loc obj) (img : loc) (a : array2 Z) (th : Z) :
  σ !! img = Some (OImg a) ->
  (forall l radius, (boundaryCircle_st img th σ).1 = Ok (l, radius) ->
     σ !! l = None /\
     exists row_com col_com,
       boundaryCircle a th = Ok ((row_com, col_com), radius) /\
       (boundaryCircle_st img th σ).2 !! l = Some (OProf [row_com; col_com])) /\
  (forall e, (boundaryCircle_st img th σ).1 = Raise e ->
     boundaryCircle a th = Raise e).
Proof.
  intros H. pose proof (boundaryCircle_st_run σ img a th H) as Hrun.
  destruct (boundaryCircle a th) as [[[rc cc] r']|e'].
  - destruct Hrun as (l' & E & F & L). split.
    + intros l r Hres. rewrite E in Hres. injection Hres as <- <-.
      split; [exact F|]. exists rc, cc. split; [reflexivity|exact L].
    + intros e Hres. rewrite E in Hres. discriminate Hres.
  - split.
    + intros l r Hres. rewrite Hrun in Hres. discriminate Hres.
    + intros e Hres. rewrite Hrun in Hres. injection Hres as <-. reflexivity.
Qed.

(** *** Projections *)

(** The box and the radius depend on the image only through the set of
    touched rows and the set of touched columns: two images (of any shapes,
    at any thresholds) with the same touched rows and the same touched
    columns get the same box and the same radius. *)
Theorem box_depends_on_projections (a b : array2 Z) (th th' : Z) :
  wf a -> wf b -> (exists i j, lit a th i j) ->
  (forall r, row_touched a th r <-> row_touched b th' r) ->
  (forall c, col_touched a th c <-> col_touched b th' c) ->
  boundaryRectangle a th = boundaryRectangle b th' /\
  exists ca cb radius,
    boundaryCircle a th = Ok (ca, radius) /\
    boundaryCircle b th' = Ok (cb, radius).
Proof.
  intros Hwa Hwb Ha Hrow Hcol.
  assert (Hb : exists i j, lit b th' i j).
  { destruct Ha as (i & j & Hij).
    destruct (proj1 (Hrow (Z.of_nat i))) as (i' & j' & _ & H');
      [exists i, j; auto|eauto]. }
  destruct (boundaryRectangle_extremes a th Hwa Ha)
    as (t & bo & l & r & Ea & Pt & Pb & Pl & Pr).
  destruct (boundaryRectangle_extremes b th' Hwb Hb)
    as (t' & bo' & l' & r' & Eb & Pt' & Pb' & Pl' & Pr').
  assert (t' = t) by (eapply least_unique; [exact Pt'|]; eapply least_ext; eauto).
  assert (bo' = bo)
    by (eapply greatest_unique; [exact Pb'|]; eapply greatest_ext; eauto).
  assert (l' = l) by (eapply least_unique; [exact Pl'|]; eapply least_ext; eauto).
  assert (r' = r)
    by (eapply greatest_unique; [exact Pr'|]; eapply greatest_ext; eauto).
  subst t' bo' l' r'. split; [congruence|].
  destruct (boundaryCircle_lit a th Hwa Ha) as (la & ra & Pla & Pra & Eca).
  destruct (boundaryCircle_lit b th' Hwb Hb) as (lb & rb & Plb & Prb & Ecb).
  assert (la = l) by (eapply least_unique; eauto).
  assert (ra = r) by (eapply greatest_unique; eauto).
  assert (lb = l) by (eapply least_unique; eauto).
  assert (rb = r) by (eapply greatest_unique; eauto).
  subst la ra lb rb. eexists _, _, _. split; [exact Eca|exact Ecb].
Qed.

(** *** The further properties at concrete images *)

Lemma zero_image_wf : wf zero_image.
Proof. apply wfb_wf. reflexivity. Defined.

Lemma bright_image_wf : wf bright_image.
Proof. apply wfb_wf. reflexivity. Defined.

Lemma small_image'_wf : wf small_image'.
Proof. apply wfb_wf. reflexivity. Defined.

Lemma bright_image_lit (i j : nat) (x : Z) :
  pixel bright_image i j = Some x -> 10 <= x.
Proof.
  unfold pixel.
  destruct i as [|[|i]]; simpl; try discriminate;
    destruct j as [|[|j]]; simpl; try discriminate;
    intros [= <-]; lia.
Defined.

Lemma small_image_only (i j : nat) :
  lit small_image 10 i j -> i = 0%nat /\ j = 1%nat.
Proof.
  unfold lit, pixel. intros (x & Hp & Hx). revert Hp.
  destruct i as [|[|i]]; simpl; try discriminate;
    destruct j as [|[|j]]; simpl; try discriminate;
    intros [= <-]; try lia; auto.
Defined.

Lemma small_image'_only (i j : nat) :
  lit small_image' 10 i j -> i = 0%nat /\ j = 1%nat.
Proof.
  unfold lit, pixel. intros (x & Hp & Hx). revert Hp.
  destruct i as [|[|i]]; simpl; try discriminate;
    destruct j as [|[|j]]; simpl; try discriminate;
    intros [= <-]; try lia; auto.
Defined.

Lemma small_image'_lit : lit small_image' 10 0 1.
Proof. exists 200. split; [reflexivity|lia]. Defined.

Lemma small_rows_same (r : Z) :
  row_touched small_image 10 r <-> row_touched small_image' 10 r.
Proof.
  split; intros (i & j & -> & H).
  - destruct (small_image_only _ _ H) as [-> ->].
    exists 0%nat, 1%nat. split; [reflexivity|exact small_image'_lit].
  - destruct (small_image'_only _ _ H) as [-> ->].
    exists 0%nat, 1%nat. split; [reflexivity|].
    exists 20. split; [reflexivity|lia].
Defined.

Lemma small_cols_same (c : Z) :
  col_touched small_image 10 c <-> col_touched small_image' 10 c.
Proof.
  split; intros (i & j & -> & H).
  - destruct (small_image_only _ _ H) as [-> ->].
    exists 0%nat, 1%nat. split; [reflexivity|exact small_image'_lit].
  - destruct (small_image'_only _ _ H) as [-> ->].
    exists 0%nat, 1%nat. split; [reflexivity|].
    exists 20. split; [reflexivity|lia].
Defined.

Lemma boundaryRectangle_fails_iff_dark_witness :
  wf zero_image /\
  ((forall i j, ~ lit zero_image 10 i j) ->
   boundaryRectangle zero_image 10 = Raise ValueError) /\
  (forall e, boundaryRectangle zero_image 10 = Raise e ->
     e = ValueError /\ forall i j, ~ lit zero_image 10 i j).
Proof.
  split; [exact zero_image_wf|].
  exact (boundaryRectangle_fails_iff_dark zero_image 10 zero_image_wf).
Defined.

Lemma boundaryCircle_fails_iff_dark_witness :
  wf zero_image /\ (0 < nrows zero_image)%nat /\
  ((forall i j, ~ lit zero_image 10 i j) ->
   boundaryCircle zero_image 10 = Raise ValueError) /\
  (forall e, boundaryCircle zero_image 10 = Raise e ->
     e = ValueError /\ forall i j, ~ lit zero_image 10 i j).
Proof.
  assert (Hr : (0 < nrows zero_image)%nat) by (vm_compute; lia).
  split; [exact zero_image_wf|]. split; [exact Hr|].
  exact (boundaryCircle_fails_iff_dark zero_image 10 zero_image_wf Hr).
Defined.

Lemma boundaryCircle_radius_from_width_witness :
  boundaryRectangle small_image 10 = Ok ((0, 1), (1, 1)) /\
  exists center,
    boundaryCircle small_image 10 = Ok (center, Fin (inject_Z (1 - 1) / 2)).
Proof.
  assert (H : boundaryRectangle small_image 10 = Ok ((0, 1), (1, 1)))
    by (vm_compute; reflexivity).
  split; [exact H|].
  exact (boundaryCircle_radius_from_width small_image 10 (0, 1) 1 1 H).
Defined.

Lemma boundaryRectangle_inside_image_witness :
  wf small_image /\ (exists i j, lit small_image 10 i j) /\
  exists top left height width,
    boundaryRectangle small_image 10 = Ok ((top, left), (height, width)) /\
    0 <= top /\ 1 <= height /\ top + height <= Z.of_nat (nrows small_image) /\
    0 <= left /\ 1 <= width /\ left + width <= Z.of_nat (ncols small_image).
Proof.
  assert (Hlit : exists i j, lit small_image 10 i j)
    by (apply small_image_lit; lia).
  split; [exact small_image_wf|]. split; [exact Hlit|].
  exact (boundaryRectangle_inside_image small_image 10 small_image_wf Hlit).
Defined.

Lemma boundaryRectangle_nested_witness :
  wf small_image /\ 10 <= 15 /\ (exists i j, lit small_image 15 i j) /\
  exists t1 l1 h1 w1 t2 l2 h2 w2,
    boundaryRectangle small_image 10 = Ok ((t1, l1), (h1, w1)) /\
    boundaryRectangle small_image 15 = Ok ((t2, l2), (h2, w2)) /\
    t1 <= t2 /\ t2 + h2 <= t1 + h1 /\ l1 <= l2 /\ l2 + w2 <= l1 + w1.
Proof.
  assert (Hle : 10 <= 15) by lia.
  assert (Hlit : exists i j, lit small_image 15 i j)
    by (apply small_image_lit; lia).
  split; [exact small_image_wf|]. split; [exact Hle|]. split; [exact Hlit|].
  exact (boundaryRectangle_nested small_image 10 15 small_image_wf Hle Hlit).
Defined.

Lemma boundaryCircle_radius_antitone_witness :
  wf small_image /\ 10 <= 15 /\ (exists i j, lit small_image 15 i j) /\
  exists c1 r1 c2 r2,
    boundaryCircle small_image 10 = Ok (c1, Fin r1) /\
    boundaryCircle small_image 15 = Ok (c2, Fin r2) /\
    (0 <= r2)%Q /\ (r2 <= r1)%Q.
Proof.
  assert (Hle : 10 <= 15) by lia.
  assert (Hlit : exists i j, lit small_image 15 i j)
    by (apply small_image_lit; lia).
  split; [exact small_image_wf|]. split; [exact Hle|]. split; [exact Hlit|].
  exact (boundaryCircle_radius_antitone small_image 10 15 small_image_wf
           Hle Hlit).
Defined.

Lemma boundaryCircle_radius_range_witness :
  wf small_image /\ (exists i j, lit small_image 10 i j) /\
  exists center r,
    boundaryCircle small_image 10 = Ok (center, Fin r) /\
    (0 <= r)%Q /\
    (r <= inject_Z (Z.of_nat (ncols small_image) - 1) / 2)%Q.
Proof.
  assert (Hlit : exists i j, lit small_image 10 i j)
    by (apply small_image_lit; lia).
  split; [exact small_image_wf|]. split; [exact Hlit|].
  exact (boundaryCircle_radius_range small_image 10 small_image_wf Hlit).
Defined.

Lemma detectors_on_mask_witness :
  0 < 128 <= 255 /\
  threshold (threshold small_image 10) 128 = threshold small_image 10 /\
  boundaryRectangle (threshold small_image 10) 128 =
    boundaryRectangle small_image 10 /\
  boundaryCircle (threshold small_image 10) 128 =
    boundaryCircle small_image 10.
Proof.
  assert (Hth : 0 < 128 <= 255) by lia.
  split; [exact Hth|]. exact (detectors_on_mask small_image 10 128 Hth).
Defined.

Lemma fully_lit_image_witness :
  wf bright_image /\ (0 < nrows bright_image)%nat /\
  (0 < ncols bright_image)%nat /\
  boundaryRectangle bright_image 10 =
    Ok ((0, 0), (Z.of_nat (nrows bright_image), Z.of_nat (ncols bright_image))) /\
  exists center,
    boundaryCircle bright_image 10 =
      Ok (center, Fin (inject_Z (Z.of_nat (ncols bright_image) - 1) / 2)).
Proof.
  assert (Hr : (0 < nrows bright_image)%nat) by (vm_compute; lia).
  assert (Hc : (0 < ncols bright_image)%nat) by (vm_compute; lia).
  split; [exact bright_image_wf|]. split; [exact Hr|]. split; [exact Hc|].
  exact (fully_lit_image bright_image 10 bright_image_wf Hr Hc
           bright_image_lit).
Defined.



Lemma boundaryRectangle_st_returns_fresh_witness :
  small_store !! 0%nat = Some (OImg small_image) /\
  (boundaryRectangle_st 0%nat 10 small_store).1 = Ok (9%nat, (1, 1)) /\
  small_store !! 9%nat = None /\
  exists top left,
    boundaryRectangle small_image 10 = Ok ((top, left), (1, 1)) /\
    (boundaryRectangle_st 0%nat 10 small_store).2 !! 9%nat =
      Some (OIdx [top; left]).
Proof.
  assert (H : small_store !! 0%nat = Some (OImg small_image)) by reflexivity.
  assert (Hres : (boundaryRectangle_st 0%nat 10 small_store).1 =
                 Ok (9%nat, (1, 1))) by (vm_compute; reflexivity).
  split; [exact H|]. split; [exact Hres|].
  exact (proj1 (boundaryRectangle_st_returns_fresh small_store 0%nat
                  small_image 10 H) 9%nat (1, 1) Hres).
Defined.

Lemma boundaryCircle_st_returns_fresh_witness :
  small_store !! 0%nat = Some (OImg small_image) /\
  (boundaryCircle_st 0%nat 10 small_store).1 = Ok (13%nat, Fin (0 # 2)) /\
  small_store !! 13%nat = None /\
  exists row_com col_com,
    boundaryCircle small_image 10 = Ok ((row_com, col_com), Fin (0 # 2)) /\
    (boundaryCircle_st 0%nat 10 small_store).2 !! 13%nat =
      Some (OProf [row_com; col_com]).
Proof.
  assert (H : small_store !! 0%nat = Some (OImg small_image)) by reflexivity.
  assert (Hres : (boundaryCircle_st 0%nat 10 small_store).1 =
                 Ok (13%nat, Fin (0 # 2))) by (vm_compute; reflexivity).
  split; [exact H|]. split; [exact Hres|].
  exact (proj1 (boundaryCircle_st_returns_fresh small_store 0%nat
                  small_image 10 H) 13%nat (Fin (0 # 2)) Hres).
Defined.

Lemma box_depends_on_projections_witness :
  wf small_image /\ wf small_image' /\
  (exists i j, lit small_image 10 i j) /\
  boundaryRectangle small_image 10 = boundaryRectangle small_image' 10 /\
  exists ca cb radius,
    boundaryCircle small_image 10 = Ok (ca, radius) /\
    boundaryCircle small_image' 10 = Ok (cb, radius).
Proof.
  assert (Hlit : exists i j, lit small_image 10 i j)
    by (apply small_image_lit; lia).
  split; [exact small_image_wf|]. split; [exact small_image'_wf|].
  split; [exact Hlit|].
  exact (box_depends_on_projections small_image small_image' 10 10
           small_image_wf small_image'_wf Hlit small_rows_same small_cols_same).
Defined.
